(** * Chuha: narrated bilingual slide lessons exported as video

    A shallow embedding of the timeline compositor ([App.tsx]), the
    content-generation client ([services/geminiService.ts]) and the audio
    decoder ([hooks/useWebAudioPlayer.ts]), followed by the properties
    established about them.

    JavaScript numbers are IEEE-754 binary64 values; they are modelled by
    Rocq's primitive [float], whose operations are the same binary64
    operations with round-to-nearest-even.  JavaScript strings are
    sequences of UTF-16 code units. *)

From Stdlib Require Import ZArith NArith QArith List Bool Lia Floats Uint63.
From Stdlib Require Import String Ascii.
Import ListNotations.

Set Warnings "-inexact-float,-register-all".

(** ** JavaScript strings *)

Module JsString.

(** A string is its sequence of UTF-16 code units. *)
Definition jsstring : Type := list N.

(** An ASCII literal as a JavaScript string. *)
Fixpoint lit (s : string) : jsstring :=
  match s with
  | EmptyString => []
  | String c rest => N_of_ascii c :: lit rest
  end.

Definition length (s : jsstring) : nat := List.length s.

(** ECMAScript WhiteSpace and LineTerminator code points, the characters
    [String.prototype.trim] strips. *)
Definition isWhiteSpace (c : N) : bool :=
  match c with
  | 9 | 10 | 11 | 12 | 13 | 32 | 160 | 5760
  | 8232 | 8233 | 8239 | 8287 | 12288 | 65279 => true
  | _ => (8192 <=? c) && (c <=? 8202)
  end%N.

Fixpoint trimStart (s : jsstring) : jsstring :=
  match s with
  | [] => []
  | c :: rest => if isWhiteSpace c then trimStart rest else s
  end.

Definition trimEnd (s : jsstring) : jsstring := rev (trimStart (rev s)).

Definition trim (s : jsstring) : jsstring := trimEnd (trimStart s).

(** [s === ''] *)
Definition isEmpty (s : jsstring) : bool :=
  match s with [] => true | _ => false end.

(** [s.split(sep)] for a one-character string separator: every occurrence
    separates, so adjacent separators give empty pieces. *)
Fixpoint splitCharFrom (sep : N) (cur : jsstring) (s : jsstring)
  : list jsstring :=
  match s with
  | [] => [rev cur]
  | c :: rest =>
      if (c =? sep)%N then rev cur :: splitCharFrom sep [] rest
      else splitCharFrom sep (c :: cur) rest
  end.

Definition splitChar (sep : N) (s : jsstring) : list jsstring :=
  splitCharFrom sep [] s.

(** The character class [[\n.]]. *)
Definition isNewlineOrPeriod (c : N) : bool :=
  ((c =? 10) || (c =? 46))%N.

(** [s.split(/[\n.]+/)]: a separator is a maximal run of class
    characters.  [cur] holds, reversed, the piece being read; [inRun]
    tells that the previous character belonged to a separator.  A
    separator at the very start gives a leading empty piece and one at
    the very end a trailing empty piece; the empty string gives [[""]],
    since the pattern does not match the empty string. *)
Fixpoint splitRunsFrom (isSep : N -> bool) (cur : jsstring) (inRun : bool)
    (s : jsstring) : list jsstring :=
  match s with
  | [] => [rev cur]
  | c :: rest =>
      if isSep c then
        if inRun then splitRunsFrom isSep [] true rest
        else rev cur :: splitRunsFrom isSep [] true rest
      else splitRunsFrom isSep (c :: cur) false rest
  end.

Definition splitNewlinePeriodRuns (s : jsstring) : list jsstring :=
  splitRunsFrom isNewlineOrPeriod [] false s.

End JsString.

(** ** The content-generation client ([services/geminiService.ts]) *)

Module GeminiService.
Import JsString.

(** What the retry wrapper does besides computing: it calls the wrapped
    operation and it sleeps ([setTimeout(resolve, delay)]). *)
Inductive Effect : Type :=
| Called
| Slept (delay : Z).

(** What a call can throw: the error of the wrapped operation, or the
    [new Error("Retry logic failed unexpectedly.")] after the loop. *)
Inductive Thrown (E : Type) : Type :=
| Raised (e : E)
| RetryLogicFailed.
Arguments Raised {E} e.
Arguments RetryLogicFailed {E}.

Section WithRetry.
Context {W T E : Type}.

(** The wrapped operation: a promise-returning function whose outcome
    depends on the state [W] of the outside world, which it may change.
    [inl] is a fulfilled promise, [inr] a rejected one. *)
Variable asyncFn : W -> (T + E) * W.

(** [maxRetries] and [initialDelay] are numbers in the code, and the
    delay [initialDelay * Math.pow(2, attempt - 1)] is computed on
    numbers.  They are whole numbers here.  That is what the code
    computes for the defaults 3 and 2000, the only values the service
    passes, and more generally as long as the budget is a whole number
    and every delay computed is a whole number that a timer takes as it
    is (a product of a whole number by a power of two is then exact in
    binary64); [RetrySpec.ExactParameters] names such parameters.
    Outside of them (a fractional, infinite or NaN budget, a fractional
    or negative delay, a delay beyond the range of a timer or of
    binary64) the code is not modelled. *)
Variable maxRetries : nat.
Variable initialDelay : Z.

(** The [while (attempt < maxRetries)] loop.  [fuel] bounds the number of
    iterations; [None] means the bound was hit. *)
Fixpoint retryLoop (fuel : nat) (attempt : nat) (w : W)
  : option ((T + Thrown E) * list Effect * W) :=
  match fuel with
  | O => None
  | S fuel' =>
      if (attempt <? maxRetries)%nat then
        match asyncFn w with
        | (inl t, w') => Some (inl t, [Called], w')
        | (inr error, w') =>
            let attempt := S attempt in
            if (maxRetries <=? attempt)%nat then
              Some (inr (Raised error), [Called], w')
            else
              let delay := (initialDelay * 2 ^ (Z.of_nat attempt - 1))%Z in
              match retryLoop fuel' attempt w' with
              | Some (r, effects, w'') =>
                  Some (r, Called :: Slept delay :: effects, w'')
              | None => None
              end
        end
      else Some (inr RetryLogicFailed, [], w)
  end.

(** Every iteration that continues increments [attempt], so
    [maxRetries + 1] iterations always suffice. *)
Definition withRetryFrom (w : W) :=
  retryLoop (S maxRetries) 0 w.

End WithRetry.

(** [withRetry(asyncFn)] with the defaults [maxRetries = 3] and
    [initialDelay = 2000], as every caller in the service uses it. *)
Definition withRetry {W T E : Type} (asyncFn : W -> (T + E) * W) (w : W) :=
  withRetryFrom asyncFn 3 2000 w.

(** A parsed JSON value. *)
Inductive Json : Type :=
| JNull
| JBool (b : bool)
| JNumber (x : float)
| JString (s : jsstring)
| JArray (items : list Json)
| JObject (fields : list (jsstring * Json)).

(** [sentences.every(item => typeof item === 'string')], keeping the
    strings. *)
Fixpoint allStrings (items : list Json) : option (list jsstring) :=
  match items with
  | [] => Some []
  | JString s :: rest =>
      match allStrings rest with
      | Some l => Some (s :: l)
      | None => None
      end
  | _ :: _ => None
  end.

(** The catch branch:
    [text.split(/[\n.]+/).filter(line => line.trim().length > 2)]. *)
Definition fallbackSplit (text : jsstring) : list jsstring :=
  filter (fun line => (2 <? length (trim line))%nat)
         (splitNewlinePeriodRuns text).

Section SplitText.
Context {W E : Type}.

(** [ai.models.generateContent] for the splitting prompt built from
    [text]; the response carries [response.text], which may be
    undefined. *)
Variable generateContent : jsstring -> W -> (option jsstring + E) * W.

(** [JSON.parse]; [None] is a SyntaxError. *)
Variable JSON_parse : jsstring -> option Json.

(** The try branch after the provider answered: trim, parse, validate,
    filter.  [None] stands for any exception thrown on the way. *)
Definition parseSentences (response_text : option jsstring)
  : option (list jsstring) :=
  match response_text with
  | None => None
  | Some txt =>
      match JSON_parse (trim txt) with
      | Some (JArray items) =>
          match allStrings items with
          | Some sentences =>
              Some (filter (fun s => negb (isEmpty (trim s))) sentences)
          | None => None
          end
      | _ => None
      end
  end.

Definition splitTextIntoSentences (text : jsstring) (w : W)
  : option (list jsstring * W) :=
  match withRetry (generateContent text) w with
  | None => None
  | Some (inl response_text, _, w') =>
      match parseSentences response_text with
      | Some sentences => Some (sentences, w')
      | None => Some (fallbackSplit text, w')
      end
  | Some (inr _, _, w') => Some (fallbackSplit text, w')
  end.

End SplitText.

End GeminiService.

(** ** JavaScript numbers and exceptions *)

Module JsNumber.

Open Scope float_scope.

(** The number with the value of a non-negative integer below 2^53. *)
Definition ofN (n : N) : float := of_uint63 (Uint63.of_Z (Z.of_N n)).

Definition ofNat (n : nat) : float := ofN (N.of_nat n).

(** The number with the value of an integer of magnitude below 2^53. *)
Definition ofZ (z : Z) : float :=
  match z with
  | Z0 => 0
  | Zpos p => ofN (Npos p)
  | Zneg p => - ofN (Npos p)
  end.

(** [Math.floor], read off the sign, mantissa and exponent of the
    number. *)
Definition floor (x : float) : float :=
  match Prim2SF x with
  | S754_finite sign m e =>
      if (0 <=? e)%Z then x
      else
        let q := Z.shiftr (Zpos m) (- e) in
        let exact := (Z.shiftl q (- e) =? Zpos m)%Z in
        if sign then ofZ (- (if exact then q else q + 1)) else ofZ q
  | _ => x
  end.

(** The exact rational value of a finite number. *)
Definition toQ (x : float) : option Q :=
  match Prim2SF x with
  | S754_zero _ => Some (0 # 1)%Q
  | S754_finite sign m e =>
      let n := if sign then Zneg m else Zpos m in
      if (0 <=? e)%Z then Some (n * 2 ^ e # 1)%Q
      else Some (n # Z.to_pos (2 ^ (- e)))%Q
  | _ => None
  end.

End JsNumber.

(** The exceptions met in the modelled code. *)
Inductive JsError : Type :=
| InvalidCharacterError   (* atob on a malformed payload *)
| RangeError              (* typed-array view of a misaligned buffer *)
| NotSupportedError.      (* AudioBuffer of zero frames *)

Inductive JsResult (A : Type) : Type :=
| Ok (a : A)
| Err (e : JsError).
Arguments Ok {A} a.
Arguments Err {A} e.

(** ** The audio decoder ([hooks/useWebAudioPlayer.ts]) *)

Module WebAudio.
Import JsString.
Open Scope N_scope.

(** *** [atob]: the forgiving-base64 decode of the HTML standard *)

Definition isAsciiWhitespace (c : N) : bool :=
  match c with 9 | 10 | 12 | 13 | 32 => true | _ => false end.

(** The value of a character of the base64 alphabet. *)
Definition sextetOf (c : N) : option N :=
  if (65 <=? c) && (c <=? 90) then Some (c - 65)            (* A-Z *)
  else if (97 <=? c) && (c <=? 122) then Some (c - 97 + 26) (* a-z *)
  else if (48 <=? c) && (c <=? 57) then Some (c - 48 + 52)  (* 0-9 *)
  else if c =? 43 then Some 62                               (* + *)
  else if c =? 47 then Some 63                               (* / *)
  else None.

Fixpoint sextetsOf (s : jsstring) : option (list N) :=
  match s with
  | [] => Some []
  | c :: rest =>
      match sextetOf c, sextetsOf rest with
      | Some v, Some l => Some (v :: l)
      | _, _ => None
      end
  end.

(** Remove one or two trailing [=]. *)
Definition stripPadding (s : jsstring) : jsstring :=
  match rev s with
  | 61 :: 61 :: r => rev r
  | 61 :: r => rev r
  | _ => s
  end.

(** Four sextets give three bytes; two trailing sextets give one byte and
    three give two, the unused low bits being discarded. *)
Fixpoint bytesOfSextets (l : list N) : list N :=
  match l with
  | a :: b :: c :: d :: rest =>
      (a * 4 + b / 16) :: ((b mod 16) * 16 + c / 4) :: ((c mod 4) * 64 + d)
        :: bytesOfSextets rest
  | [a; b; c] => [a * 4 + b / 16; (b mod 16) * 16 + c / 4]
  | [a; b] => [a * 4 + b / 16]
  | _ => []
  end.

(** [atob(base64)]: the binary string, one code unit per byte; [None] is
    the InvalidCharacterError. *)
Definition atob (data : jsstring) : option jsstring :=
  let data := filter (fun c => negb (isAsciiWhitespace c)) data in
  let data :=
    if (N.of_nat (List.length data) mod 4 =? 0) then stripPadding data
    else data in
  if (N.of_nat (List.length data) mod 4 =? 1) then None
  else
    match sextetsOf data with
    | Some l => Some (bytesOfSextets l)
    | None => None
    end.

(** [decode]: [bytes[i] = binaryString.charCodeAt(i)] into a
    [Uint8Array], which keeps the low eight bits. *)
Definition decode (base64 : jsstring) : JsResult (list N) :=
  match atob base64 with
  | Some binaryString => Ok (map (fun c => c mod 256) binaryString)
  | None => Err InvalidCharacterError
  end.

(** *** [new Int16Array(data.buffer)] *)

(** The signed 16-bit value of two bytes, low byte first (typed arrays
    use the byte order of the platform, little-endian on the platforms
    browsers run on). *)
Definition int16OfBytes (lo hi : N) : Z :=
  let u := Z.of_N (lo + 256 * hi) in
  if (u <? 32768)%Z then u else (u - 65536)%Z.

Fixpoint int16Pairs (bytes : list N) : list Z :=
  match bytes with
  | lo :: hi :: rest => int16OfBytes lo hi :: int16Pairs rest
  | _ => []
  end.

(** A typed-array view over a whole buffer throws a RangeError unless the
    byte length of the buffer is a multiple of the element size. *)
Definition Int16Array (bytes : list N) : JsResult (list Z) :=
  if (N.of_nat (List.length bytes) mod 2 =? 0) then Ok (int16Pairs bytes)
  else Err RangeError.

(** *** [AudioBuffer] *)

Record AudioBuffer : Type := mkAudioBuffer {
  numberOfChannels : nat;
  sampleRate : float;
  channelData : list float      (* the only channel *)
}.

(** [buffer.length], the number of sample frames. *)
Definition frames (b : AudioBuffer) : nat := List.length (channelData b).

(** [buffer.duration] is [length / sampleRate]. *)
Definition duration (b : AudioBuffer) : float :=
  (JsNumber.ofNat (frames b) / sampleRate b)%float.

(** [ctx.createBuffer(1, frameCount, sampleRate)]: a silent mono buffer.
    The Web Audio API requires a NotSupportedError when an argument is
    zero, so no buffer of zero frames exists. *)
Definition createBuffer (frameCount : nat) (rate : float)
  : JsResult AudioBuffer :=
  match frameCount with
  | O => Err NotSupportedError
  | S _ => Ok (mkAudioBuffer 1 rate (repeat 0%float frameCount))
  end.

(** [dataInt16[i] / 32768.0]. *)
Definition normalize (v : Z) : float := (JsNumber.ofZ v / 32768)%float.

(** The loop [for (i = 0; i < frameCount; i++) channelData[i] =
    dataInt16[i] / 32768.0] over a buffer of [frameCount =
    dataInt16.length] frames overwrites every frame.  The quotient has at
    most 16 significant bits, so storing it in the [Float32Array] keeps
    it as it is. *)
Definition fillChannel (b : AudioBuffer) (dataInt16 : list Z) : AudioBuffer :=
  mkAudioBuffer (numberOfChannels b) (sampleRate b)
    (map normalize dataInt16
       ++ skipn (List.length dataInt16) (channelData b)).

Definition getAudioBufferFromBase64 (base64 : jsstring)
  : JsResult AudioBuffer :=
  match decode base64 with
  | Err e => Err e
  | Ok data =>
      let sampleRate := 24000%float in
      match Int16Array data with
      | Err e => Err e
      | Ok dataInt16 =>
          let frameCount := List.length dataInt16 in
          match createBuffer frameCount sampleRate with
          | Err e => Err e
          | Ok buffer => Ok (fillChannel buffer dataInt16)
          end
      end
  end.

End WebAudio.

(** ** The application ([App.tsx]) *)

Module App.
Import JsString.

Open Scope float_scope.

(** [types.ts]: the [Slide] interface. *)
Record Slide : Type := mkSlide {
  id : nat;
  english : jsstring;
  hindi : jsstring;
  imageUrl : option jsstring;
  script : jsstring;
  audioData : option jsstring
}.

(** *** Single-slide regeneration *)

(** How an awaited service call ends inside a handler's [try]. *)
Inductive Awaited (A : Type) : Type :=
| Resolved (a : A)
| Rejected.
Arguments Resolved {A} a.
Arguments Rejected {A}.

(** [{ ...s, imageUrl: newImageUrl }] and its siblings. *)
Definition withImageUrl (s : Slide) (newImageUrl : option jsstring) : Slide :=
  mkSlide (id s) (english s) (hindi s) newImageUrl (script s) (audioData s).

Definition withHindi (s : Slide) (newHindi : jsstring) : Slide :=
  mkSlide (id s) (english s) newHindi (imageUrl s) (script s) (audioData s).

Definition withScriptAndAudio (s : Slide) (newScript : jsstring)
    (newAudioData : option jsstring) : Slide :=
  mkSlide (id s) (english s) (hindi s) (imageUrl s) newScript newAudioData.

(** Each handler reads [slides[currentSlideIndex]] from the state it was
    created with, awaits the service, and on success hands React the
    updater [prevSlides => prevSlides.map(...)], which React applies to
    the slides current at that moment.  The handler is modelled by the
    function it applies to [prevSlides]; the identity when the index is
    out of range ([if (!slide) return]) or the call is rejected. *)
Definition handleRegenerateImage (slides : list Slide)
    (currentSlideIndex : nat)
    (generateImage : Slide -> Awaited (option jsstring))
    (prevSlides : list Slide) : list Slide :=
  match nth_error slides currentSlideIndex with
  | None => prevSlides
  | Some slide =>
      match generateImage slide with
      | Resolved newImageUrl =>
          map (fun s => if (id s =? id slide)%nat
                        then withImageUrl s newImageUrl else s) prevSlides
      | Rejected => prevSlides
      end
  end.

Definition handleRegenerateTranslation (slides : list Slide)
    (currentSlideIndex : nat)
    (translateText : Slide -> Awaited jsstring)
    (prevSlides : list Slide) : list Slide :=
  match nth_error slides currentSlideIndex with
  | None => prevSlides
  | Some slide =>
      match translateText slide with
      | Resolved newHindi =>
          map (fun s => if (id s =? id slide)%nat
                        then withHindi s newHindi else s) prevSlides
      | Rejected => prevSlides
      end
  end.

Definition handleRegenerateScript (slides : list Slide)
    (currentSlideIndex : nat)
    (generateExplanation : Slide -> Awaited jsstring)
    (generateSpeech : jsstring -> Awaited (option jsstring))
    (prevSlides : list Slide) : list Slide :=
  match nth_error slides currentSlideIndex with
  | None => prevSlides
  | Some slide =>
      match generateExplanation slide with
      | Resolved newScript =>
          match generateSpeech newScript with
          | Resolved newAudioData =>
              map (fun s => if (id s =? id slide)%nat
                            then withScriptAndAudio s newScript newAudioData
                            else s) prevSlides
          | Rejected => prevSlides
          end
      | Rejected => prevSlides
      end
  end.

(** *** Timeline *)

(** The objects pushed on [timeline] in [handleDownloadVideo]:
    [{ type: 'slide', index, startTime, duration }] and
    [{ type: 'transition', from, to, startTime, duration }]. *)
Inductive TimelineEvent : Type :=
| SlideEvent (index : nat) (startTime duration : float)
| TransitionEvent (from to : nat) (startTime duration : float).

Definition startTime (e : TimelineEvent) : float :=
  match e with
  | SlideEvent _ s _ => s
  | TransitionEvent _ _ s _ => s
  end.

Definition duration (e : TimelineEvent) : float :=
  match e with
  | SlideEvent _ _ d => d
  | TransitionEvent _ _ _ d => d
  end.

Definition isSlide (e : TimelineEvent) : bool :=
  match e with SlideEvent _ _ _ => true | TransitionEvent _ _ _ _ => false end.

Definition isTransition (e : TimelineEvent) : bool := negb (isSlide e).

(** [buffer.duration > 0.5 ? buffer.duration + 0.5 : 3.0], and [3.0] when
    the slide has no narration ([!slide.audioData]).  The argument is the
    duration of the decoded buffer, [None] when there is no audio. *)
Definition paddedDuration (decoded : option float) : float :=
  match decoded with
  | None => 3.0
  | Some d => if 0.5 <? d then d + 0.5 else 3.0
  end.

(** One element of [slideDurations]: the default without narration
    ([!slide.audioData] holds for [null] and for the empty string),
    otherwise the padded duration of the decoded buffer; a failed decode
    rejects the promise. *)
Definition slideDuration (slide : Slide) : JsResult float :=
  match audioData slide with
  | None | Some [] => Ok (paddedDuration None)
  | Some payload =>
      match WebAudio.getAudioBufferFromBase64 payload with
      | Ok buffer => Ok (paddedDuration (Some (WebAudio.duration buffer)))
      | Err e => Err e
      end
  end.

(** [await Promise.all(slides.map(...))]: all the durations, or the
    rejection of a slide that failed. *)
Fixpoint slideDurations (slides : list Slide) : JsResult (list float) :=
  match slides with
  | [] => Ok []
  | slide :: rest =>
      match slideDuration slide, slideDurations rest with
      | Ok d, Ok ds => Ok (d :: ds)
      | Err e, _ => Err e
      | _, Err e => Err e
      end
  end.

(** [const transitionDuration = 0;] *)
Definition transitionDuration : float := 0.

(** The loop
    [for (let i = 0; i < slides.length; i++) { push slide; currentTime += d;
       if (i < slides.length - 1) { push transition; currentTime += td } }]
    run from index [i] with the durations still to be visited.
    [slideDurations] has one entry per slide (it is [slides.map(...)]), so
    [i < slides.length - 1] holds exactly when entries remain after the
    current one. *)
Fixpoint timelineLoop (td : float) (i : nat) (currentTime : float)
    (slideDurations : list float) : list TimelineEvent * float :=
  match slideDurations with
  | [] => ([], currentTime)
  | d :: rest =>
      let ev := SlideEvent i currentTime d in
      let currentTime := currentTime + d in
      match rest with
      | [] => ([ev], currentTime)
      | _ :: _ =>
          let tr := TransitionEvent i (S i) currentTime td in
          let currentTime := currentTime + td in
          let '(evs, total) := timelineLoop td (S i) currentTime rest in
          (ev :: tr :: evs, total)
      end
  end.

(** [timeline] and [totalDuration] for a transition duration [td]. *)
Definition buildTimelineWith (td : float) (slideDurations : list float)
  : list TimelineEvent * float :=
  timelineLoop td 0 0 slideDurations.

Definition buildTimeline := buildTimelineWith transitionDuration.

(** [timeline.find(e => elapsed >= e.startTime &&
                        elapsed < e.startTime + e.duration)] *)
Definition isActive (elapsed : float) (e : TimelineEvent) : bool :=
  (startTime e <=? elapsed) && (elapsed <? startTime e + duration e).

Definition currentEvent (elapsed : float) (timeline : list TimelineEvent)
  : option TimelineEvent :=
  find (isActive elapsed) timeline.

(** What one tick of [renderLoop] draws over the background. *)
Inductive Drawn : Type :=
| DrawSlide (index : nat)
| DrawTransition (from to : nat)
| DrawLastFrame
| DrawBackgroundOnly.

Definition renderBranch (elapsed : float) (timeline : list TimelineEvent)
    (totalDuration : float) : Drawn :=
  match currentEvent elapsed timeline with
  | Some (SlideEvent i _ _) => DrawSlide i
  | Some (TransitionEvent f t _ _) => DrawTransition f t
  | None => if totalDuration <=? elapsed then DrawLastFrame
            else DrawBackgroundOnly
  end.

(** *** Text layout for the exported frames *)

Inductive FontFamily : Type :=
| Poppins
| TiroDevanagariHindi.

(** [`700 ${size}px Poppins`] and [`700 ${size}px "Tiro Devanagari Hindi"`]. *)
Record Font : Type := mkFont {
  fontSizePx : float;
  fontFamily : FontFamily
}.

(** The result of the fitting loop of [createTextCache]: the variables
    the drawing code after the loop reads. *)
Record TextLayout : Type := mkTextLayout {
  finalEnglishFontSize : float;
  finalHindiFontSize : float;
  englishLines : list jsstring;
  hindiLines : list jsstring;
  totalTextHeight : float
}.

(** [let finalEnglishFontSize = 0, finalHindiFontSize = 0,
     totalTextHeight = 0; let englishLines = [], hindiLines = [];] *)
Definition initialLayout : TextLayout := mkTextLayout 0 0 [] [] 0.

(** [canvas.width = 1920; canvas.height = 1080;] *)
Definition canvasWidth : float := 1920.
Definition canvasHeight : float := 1080.
Definition MAX_TEXT_WIDTH : float := canvasWidth / 2 - 80.
Definition MAX_TEXT_HEIGHT : float := canvasHeight - 80.

Section TextCache.

(** [context.measureText(text).width] under the font set on the context:
    the text metrics of the browser. *)
Variable measureText : Font -> jsstring -> float.

(** The loop of [calculateLines] over [words[1..]]. *)
Fixpoint wrapWords (font : Font) (maxWidth : float) (lines : list jsstring)
    (currentLine : jsstring) (words : list jsstring) : list jsstring :=
  match words with
  | [] => lines ++ [currentLine]
  | word :: rest =>
      let testLine := currentLine ++ [32%N] ++ word in
      if maxWidth <? measureText font testLine
      then wrapWords font maxWidth (lines ++ [currentLine]) word rest
      else wrapWords font maxWidth lines testLine rest
  end.

Definition calculateLines (font : Font) (text : jsstring) (maxWidth : float)
  : list jsstring :=
  match text with
  | [] => []
  | _ :: _ =>
      match splitChar 32 text with
      | [] => wrapWords font maxWidth [] [] []
      | first :: rest => wrapWords font maxWidth [] first rest
      end
  end.

(** One round of the fitting loop at font size [size]: the layout it
    would keep and whether it fits. *)
Definition layoutAt (slide : Slide) (size : Z) : TextLayout * bool :=
  let currentEnglishFontSize := JsNumber.ofZ size in
  let currentHindiFontSize := JsNumber.floor (JsNumber.ofZ size * 0.85) in
  let englishLineHeight := currentEnglishFontSize * 1.3 in
  let hindiLineHeight := currentHindiFontSize * 1.5 in
  let tempEnglishLines :=
    calculateLines (mkFont currentEnglishFontSize Poppins)
                   (english slide) MAX_TEXT_WIDTH in
  let tempHindiLines :=
    calculateLines (mkFont currentHindiFontSize TiroDevanagariHindi)
                   (hindi slide) MAX_TEXT_WIDTH in
  let calculatedHeight :=
    JsNumber.ofNat (List.length tempEnglishLines) * englishLineHeight
    + JsNumber.ofNat (List.length tempHindiLines) * hindiLineHeight
    + (match tempHindiLines with [] => 0 | _ :: _ => 25 end) in
  (mkTextLayout currentEnglishFontSize currentHindiFontSize
     tempEnglishLines tempHindiLines calculatedHeight,
   calculatedHeight <=? MAX_TEXT_HEIGHT).

(** [for (let size = 48; size >= 10; size -= 2) { ...; if (fits) { keep;
    break; } }], from [size] on.  [None] means [fuel] iterations were not
    enough. *)
Fixpoint fitLoop (fuel : nat) (slide : Slide) (size : Z)
  : option TextLayout :=
  match fuel with
  | O => None
  | S fuel' =>
      if (10 <=? size)%Z then
        let '(layout, fits) := layoutAt slide size in
        if fits then Some layout
        else fitLoop fuel' slide (size - 2)
      else Some initialLayout
  end.

(** The layout [createTextCache] draws: nothing else of the loop reaches
    the drawing code.  Twenty sizes are tried, so 21 iterations reach the
    exit test. *)
Definition createTextCache (slide : Slide) : option TextLayout :=
  fitLoop 21 slide 48.

End TextCache.

End App.

(** ** The other calls of the content-generation client
       ([services/geminiService.ts]) *)

Module GeminiCalls.
Import JsString GeminiService.

(** The parts of a [GenerateContentResponse] the client reads. *)
Record InlineData : Type := mkInlineData {
  data : option jsstring
}.

Record Part : Type := mkPart {
  inlineData : option InlineData
}.

Record GenerateContentResponse : Type := mkResponse {
  text : option jsstring;        (* [response.text], possibly undefined *)
  parts : option (list Part)     (* [response.candidates?.[0]?.content?.parts] *)
}.

(** What the client asks the provider for; each constructor stands for
    the prompt and configuration one function builds from these
    arguments. *)
Inductive Request : Type :=
| SplitRequest (text : jsstring)
| TranslateRequest (text context : jsstring)
| ExplainRequest (text context : jsstring) (withSystemInstruction : bool)
| ImageRequest (englishText explanation context : jsstring)
| SpeechRequest (script : jsstring).

(** [context || fallback] *)
Definition orElse (context fallback : jsstring) : jsstring :=
  match context with
  | [] => fallback
  | _ :: _ => context
  end.

(** The string returned when translation fails (line 124). *)
Definition translationError : jsstring :=
  [2309; 2344; 2369; 2357; 2366; 2342; 32; 2350; 2375; 2306; 32; 2340;
   2381; 2352; 2369; 2335; 2367; 32; 2361; 2369; 2312; 2404]%N.

(** The string returned when explanation fails (line 169). *)
Definition explanationError : jsstring :=
  [2311; 2360; 32; 2346; 2306; 2325; 2381; 2340; 2367; 32; 2325; 2366;
   32; 2360; 2381; 2346; 2359; 2381; 2335; 2368; 2325; 2352; 2339; 32;
   2313; 2340; 2381; 2346; 2344; 2381; 2344; 32; 2344; 2361; 2368; 2306;
   32; 2361; 2379; 32; 2360; 2325; 2366; 2404]%N.

(** The loop [for (const part of parts ?? []) if (part.inlineData)
    return part.inlineData.data; return null]. *)
Fixpoint firstInlineData (ps : list Part) : option jsstring :=
  match ps with
  | [] => None
  | p :: rest =>
      match inlineData p with
      | Some d => data d
      | None => firstInlineData rest
      end
  end.

(** [parts?.[0]?.inlineData?.data ?? null] *)
Definition headInlineData (ps : option (list Part)) : option jsstring :=
  match ps with
  | Some (p :: _) =>
      match inlineData p with
      | Some d => data d
      | None => None
      end
  | _ => None
  end.

Section Calls.
Context {W E : Type}.

(** [ai.models.generateContent]. *)
Variable generateContent :
  Request -> W -> (GenerateContentResponse + E) * W.

(** Each function returns its value, the effects of its retry wrapper
    and the world it leaves; [None] only if the wrapper ran out of
    fuel. *)
Definition translateText (english context : jsstring) (w : W)
  : option (jsstring * list Effect * W) :=
  let request :=
    TranslateRequest english
      (orElse context (lit "No previous context provided.")) in
  match withRetry (generateContent request) w with
  | None => None
  | Some (inl response, effects, w') =>
      match text response with
      | Some t => Some (trim t, effects, w')
      | None => Some (translationError, effects, w')
      end
  | Some (inr _, effects, w') => Some (translationError, effects, w')
  end.

Definition generateExplanation (english context : jsstring) (w : W)
  : option (jsstring * list Effect * W) :=
  let request :=
    ExplainRequest english
      (orElse context (lit "This is the beginning of the lesson."))
      (negb (isEmpty context)) in
  match withRetry (generateContent request) w with
  | None => None
  | Some (inl response, effects, w') =>
      match text response with
      | Some t => Some (trim t, effects, w')
      | None => Some (explanationError, effects, w')
      end
  | Some (inr _, effects, w') => Some (explanationError, effects, w')
  end.

Definition generateImage (englishText explanation context : jsstring)
    (w : W) : option (option jsstring * list Effect * W) :=
  let request :=
    ImageRequest englishText explanation
      (orElse context (lit "No additional context provided.")) in
  match withRetry (generateContent request) w with
  | None => None
  | Some (inl response, effects, w') =>
      match parts response with
      | Some ps => Some (firstInlineData ps, effects, w')
      | None => Some (None, effects, w')
      end
  | Some (inr _, effects, w') => Some (None, effects, w')
  end.

Definition generateSpeech (script : jsstring) (w : W)
  : option (option jsstring * list Effect * W) :=
  if isEmpty (trim script) then Some (None, [], w)
  else
    match withRetry (generateContent (SpeechRequest script)) w with
    | None => None
    | Some (inl response, effects, w') =>
        Some (headInlineData (parts response), effects, w')
    | Some (inr _, effects, w') => Some (None, effects, w')
    end.

(** The provider as [splitTextIntoSentences] sees it. *)
Definition splitProvider (passage : jsstring) (w : W)
  : (option jsstring + E) * W :=
  match generateContent (SplitRequest passage) w with
  | (inl response, w') => (inl (text response), w')
  | (inr e, w') => (inr e, w')
  end.

End Calls.

End GeminiCalls.

(** ** The lesson pipeline ([App.tsx], generateSlides) *)

Module Pipeline.
Import JsString GeminiService GeminiCalls App.

(** [types.ts]: [GenerationState]. *)
Inductive GenerationState : Type :=
| idle | processing | translating | explaining
| imaging | narrating | done | error.

Inductive ServiceKind : Type :=
| Translate | Explain | Image | Speech.

(** What the pipeline does between its state updates: a call of a
    service function, with the effects of its retry wrapper, or the
    pause [await new Promise(resolve => setTimeout(resolve, 2000))]. *)
Inductive PipelineEvent : Type :=
| ServiceCall (kind : ServiceKind) (effects : list Effect)
| Paused (ms : Z).

(** How a call of [generateSlides] ends: at once on blank input, or with
    a final generation state and the slides it has set. *)
Inductive Run (W : Type) : Type :=
| Ignored
| Finished (state : GenerationState) (slides : list Slide)
           (events : list PipelineEvent) (w : W).
Arguments Ignored {W}.
Arguments Finished {W} state slides events w.

Section GenerateSlides.
Context {W E : Type}.
Variable generateContent :
  Request -> W -> (GenerateContentResponse + E) * W.
Variable JSON_parse : jsstring -> option Json.

(** [if (i < n - 1) await pause]: a pause unless the item is the last. *)
Definition pauseUnlessLast {A : Type} (rest : list A) : list PipelineEvent :=
  match rest with
  | [] => []
  | _ :: _ => [Paused 2000]
  end.

(** Step 1, from line [i] on: translate, explain when asked (the script
    is [" "] otherwise), push the slide. *)
Fixpoint translateLoop (contextText : jsstring)
    (autoGenerateExplanation : bool) (i : nat) (lines : list jsstring)
    (w : W) : option (list Slide * list PipelineEvent * W) :=
  match lines with
  | [] => Some ([], [], w)
  | english :: rest =>
      match translateText generateContent english contextText w with
      | None => None
      | Some (hindi, effects1, w1) =>
          let explained :=
            if autoGenerateExplanation then
              match generateExplanation generateContent english
                                        contextText w1 with
              | None => None
              | Some (script, effects2, w2) =>
                  Some (script, [ServiceCall Explain effects2], w2)
              end
            else Some (lit " ", [], w1) in
          match explained with
          | None => None
          | Some (script, events2, w2) =>
              let slide := mkSlide i english hindi None script None in
              match translateLoop contextText autoGenerateExplanation
                                  (S i) rest w2 with
              | None => None
              | Some (slides, events, w3) =>
                  Some (slide :: slides,
                        ServiceCall Translate effects1 :: events2
                          ++ pauseUnlessLast rest ++ events,
                        w3)
              end
          end
      end
  end.

(** Step 2: [slide.imageUrl = await generateImage(slide.english,
    slide.script, contextText)] for each slide in order.  The service
    catches its own failures, so the [catch] of the loop is never
    entered. *)
Fixpoint imageLoop (contextText : jsstring) (slides : list Slide) (w : W)
  : option (list Slide * list PipelineEvent * W) :=
  match slides with
  | [] => Some ([], [], w)
  | slide :: rest =>
      match generateImage generateContent (english slide) (script slide)
                          contextText w with
      | None => None
      | Some (imageUrl, effects, w1) =>
          match imageLoop contextText rest w1 with
          | None => None
          | Some (slides', events, w2) =>
              Some (withImageUrl slide imageUrl :: slides',
                    ServiceCall Image effects :: pauseUnlessLast rest
                      ++ events,
                    w2)
          end
      end
  end.

(** [{ ...slide, audioData }], the in-place assignment of step 3. *)
Definition withAudioData (s : Slide) (audio : option jsstring) : Slide :=
  mkSlide (id s) (english s) (hindi s) (imageUrl s) (script s) audio.

(** Step 3: narration for the slides whose script is not blank. *)
Fixpoint narrationLoop (slides : list Slide) (w : W)
  : option (list Slide * list PipelineEvent * W) :=
  match slides with
  | [] => Some ([], [], w)
  | slide :: rest =>
      let narrated :=
        if isEmpty (trim (script slide)) then Some (None, [], w)
        else
          match generateSpeech generateContent (script slide) w with
          | None => None
          | Some (audio, effects, w1) =>
              Some (audio, [ServiceCall Speech effects], w1)
          end in
      match narrated with
      | None => None
      | Some (audio, events1, w1) =>
          match narrationLoop rest w1 with
          | None => None
          | Some (slides', events, w2) =>
              Some (withAudioData slide audio :: slides',
                    events1 ++ pauseUnlessLast rest ++ events,
                    w2)
          end
      end
  end.

Definition generateSlides (inputText contextText : jsstring)
    (autoGenerateExplanation : bool) (w : W) : option (Run W) :=
  if isEmpty (trim inputText) then Some Ignored
  else
    match splitTextIntoSentences (splitProvider generateContent)
                                 JSON_parse inputText w with
    | None => None
    | Some ([], w1) => Some (Finished error [] [] w1)
    | Some (lines, w1) =>
        match translateLoop contextText autoGenerateExplanation 0 lines
                            w1 with
        | None => None
        | Some (slides1, events1, w2) =>
            match imageLoop contextText slides1 w2 with
            | None => None
            | Some (slides2, events2, w3) =>
                match narrationLoop slides2 w3 with
                | None => None
                | Some (slides3, events3, w4) =>
                    Some (Finished done slides3
                            (events1 ++ events2 ++ events3) w4)
                end
            end
        end
    end.

End GenerateSlides.

End Pipeline.

(** ** Lesson playback and navigation ([App.tsx]) *)

Module Player.
Import JsString App.

(** [types.ts]: [LessonState]. *)
Inductive LessonState : Type :=
| lessonIdle | playing | paused | finished.

(** The state the navigation handlers read and set. *)
Record PlayerState : Type := mkPlayer {
  slides : list Slide;
  currentSlideIndex : nat;
  lessonState : LessonState
}.

(** [currentSlideIndex < slides.length - 1], over the integers as in
    JavaScript, where the right-hand side is -1 for an empty lesson. *)
Definition beforeLast (p : PlayerState) : bool :=
  (Z.of_nat (currentSlideIndex p) <? Z.of_nat (List.length (slides p)) - 1)%Z.

(** Each handler is modelled on the state it was rendered with, which is
    the state its updates apply to. *)
Definition handleNextSlide (p : PlayerState) : PlayerState :=
  if beforeLast p
  then mkPlayer (slides p) (currentSlideIndex p + 1) (lessonState p)
  else mkPlayer (slides p) (currentSlideIndex p) finished.

Definition handleManualNext (p : PlayerState) : PlayerState :=
  if beforeLast p
  then mkPlayer (slides p) (currentSlideIndex p + 1) paused
  else p.

Definition handleManualPrev (p : PlayerState) : PlayerState :=
  if (0 <? currentSlideIndex p)%nat
  then mkPlayer (slides p) (currentSlideIndex p - 1) paused
  else p.

(** [slides.every(s => s.audioData !== undefined)] holds for every
    [Slide], whose [audioData] is a string or null. *)
Definition startLesson (p : PlayerState) : PlayerState :=
  match slides p with
  | [] => p
  | _ :: _ =>
      match lessonState p with
      | finished => mkPlayer (slides p) 0 playing
      | _ => mkPlayer (slides p) (currentSlideIndex p) playing
      end
  end.

Definition pauseLesson (p : PlayerState) : PlayerState :=
  mkPlayer (slides p) (currentSlideIndex p) paused.

Definition handlePlayPause (p : PlayerState) : PlayerState :=
  match lessonState p with
  | playing => pauseLesson p
  | _ => startLesson p
  end.

Definition handleNewLesson (p : PlayerState) : PlayerState :=
  mkPlayer [] 0 lessonIdle.

(** What the user or the narration player can do at any time: the
    handlers carry their own tests. *)
Inductive Action : Type :=
| NarrationEnded                       (* onCompletion: handleNextSlide *)
| ManualNext
| ManualPrev
| PlayPause
| Start
| Pause.

Definition act (p : PlayerState) (a : Action) : PlayerState :=
  match a with
  | NarrationEnded => handleNextSlide p
  | ManualNext => handleManualNext p
  | ManualPrev => handleManualPrev p
  | PlayPause => handlePlayPause p
  | Start => startLesson p
  | Pause => pauseLesson p
  end.

(** [useState] initial values. *)
Definition initialPlayer : PlayerState := mkPlayer [] 0 lessonIdle.

(** The current index designates a slide, or is 0 in an empty lesson. *)
Definition IndexInRange (p : PlayerState) : Prop :=
  (currentSlideIndex p < List.length (slides p))%nat \/
  (slides p = [] /\ currentSlideIndex p = 0%nat).

End Player.

(** ** A session: the player while lessons are generated ([App.tsx],
       [components/Controls.tsx]) *)

Module Session.
Import JsString App Pipeline Player.

(** [isGenerating] of [Controls], [isLoading] of [GenerationButton]. *)
Definition isGenerating (g : GenerationState) : bool :=
  match g with
  | processing | translating | explaining | imaging | narrating => true
  | idle | done | error => false
  end.

(** The state of [App] that playback and generation share, and the local
    array [newSlides] of the call of [generateSlides] in flight ([None]
    when no call is in flight; the array is empty until the first
    push, also while the text is being split). *)
Record AppState : Type := mkApp {
  player : PlayerState;
  generationState : GenerationState;
  newSlides : option (list Slide)
}.

(** [setSlides(l)] alone: the index and the lesson state stay. *)
Definition setSlides (l : list Slide) (p : PlayerState) : PlayerState :=
  mkPlayer l (currentSlideIndex p) (lessonState p).

(** [l[i] = f(l[i])] for [i < l.length]. *)
Fixpoint assign {A : Type} (i : nat) (f : A -> A) (l : list A) : list A :=
  match l, i with
  | [], _ => []
  | x :: rest, O => f x :: rest
  | x :: rest, S i' => x :: assign i' f rest
  end.

(** The generation states a call in flight sets between its first and
    its last update. *)
Inductive Stage : Type :=
| Translating      (* l.56 *)
| Explaining       (* l.67 *)
| Imaging          (* l.80 *)
| Narrating.       (* l.100 *)

Definition stateOf (st : Stage) : GenerationState :=
  match st with
  | Translating => translating
  | Explaining => explaining
  | Imaging => imaging
  | Narrating => narrating
  end.

(** The updates a call of [generateSlides] makes after its first
    [await], one constructor per place in the code.  Between two of them
    the call awaits a service or a pause, and anything else can
    happen. *)
Inductive RunStep : Type :=
| NoLines                       (* l.47-53: setGenerationState('error') *)
| Entered (st : Stage)
| SlidePushed (slide : Slide)   (* l.70-71: push, setSlides([...newSlides]) *)
| ImageAssigned (i : nat) (newImageUrl : option jsstring)
                                (* l.84-86, for i < newSlides.length *)
| AudioAssigned (i : nat) (newAudioData : option jsstring)
                                (* l.104-110, for i < newSlides.length *)
| Completed.                    (* l.123: setGenerationState('done') *)

(** The update of a step on the array of the call; [None] for a step
    that does not publish the array. *)
Definition published (r : RunStep) (a : list Slide) : option (list Slide) :=
  match r with
  | SlidePushed slide => Some (a ++ [slide])
  | ImageAssigned i v =>
      if (i <? List.length a)%nat
      then Some (assign i (fun s => withImageUrl s v) a) else None
  | AudioAssigned i v =>
      if (i <? List.length a)%nat
      then Some (assign i (fun s => withAudioData s v) a) else None
  | NoLines | Entered _ | Completed => None
  end.

Definition runStep (s : AppState) (r : RunStep) : AppState :=
  match newSlides s with
  | None => s
  | Some a =>
      match r with
      | NoLines => mkApp (player s) error None
      | Completed => mkApp (player s) done None
      | Entered st => mkApp (player s) (stateOf st) (Some a)
      | SlidePushed _ | ImageAssigned _ _ | AudioAssigned _ _ =>
          match published r a with
          | Some a' =>
              mkApp (setSlides a' (player s)) (generationState s) (Some a')
          | None => s
          end
      end
  end.

(** The updater a regeneration handler hands to [setSlides] when its
    service call has ended; it was created with the slides and the index
    of an earlier render. *)
Inductive Regeneration : Type :=
| RegenerateImage (generateImage : Slide -> Awaited (option jsstring))
| RegenerateTranslation (translateText : Slide -> Awaited jsstring)
| RegenerateScript (generateExplanation : Slide -> Awaited jsstring)
                   (generateSpeech : jsstring -> Awaited (option jsstring)).

Definition regenerate (slides : list Slide) (currentSlideIndex : nat)
    (g : Regeneration) (prevSlides : list Slide) : list Slide :=
  match g with
  | RegenerateImage generateImage =>
      handleRegenerateImage slides currentSlideIndex generateImage
                            prevSlides
  | RegenerateTranslation translateText =>
      handleRegenerateTranslation slides currentSlideIndex translateText
                                  prevSlides
  | RegenerateScript generateExplanation generateSpeech =>
      handleRegenerateScript slides currentSlideIndex generateExplanation
                             generateSpeech prevSlides
  end.

(** What can happen in a session.  A button acts on the state it was
    rendered with. *)
Inductive Event : Type :=
| Acted (a : Action)
| NewLessonClicked
| GenerateClicked (inputText : jsstring)
| RunStepped (r : RunStep)
| Regenerated (slides : list Slide) (currentSlideIndex : nat)
              (g : Regeneration).

Definition step (s : AppState) (e : Event) : AppState :=
  match e with
  | Acted a => mkApp (act (player s) a) (generationState s) (newSlides s)
  | NewLessonClicked =>
      (* Controls renders the button when the lesson has slides, with
         disabled={isGenerating || isGeneratingVideo} *)
      match slides (player s) with
      | [] => s
      | _ :: _ =>
          if isGenerating (generationState s) then s
          else mkApp (handleNewLesson (player s)) idle (newSlides s)
      end
  | GenerateClicked inputText =>
      (* Controls renders the button when the lesson has no slide, with
         disabled={!inputText || isLoading}; generateSlides returns at
         once on blank text, and otherwise resets the player (l.33-37)
         before its first await *)
      match slides (player s) with
      | _ :: _ => s
      | [] =>
          if isEmpty inputText || isGenerating (generationState s) then s
          else if isEmpty (trim inputText) then s
          else mkApp (mkPlayer [] 0 lessonIdle) processing (Some [])
      end
  | RunStepped r => runStep s r
  | Regenerated slides0 index0 g =>
      mkApp (setSlides (regenerate slides0 index0 g (slides (player s)))
                       (player s))
            (generationState s) (newSlides s)
  end.

(** [useState] initial values; no call in flight. *)
Definition initialApp : AppState := mkApp initialPlayer idle None.

(** What holds between the events of a session: the index is in range;
    a call is in flight only in a generating state; and the array of the
    call in flight is at least as long as the published slides. *)
Definition Consistent (s : AppState) : Prop :=
  IndexInRange (player s) /\
  forall a, newSlides s = Some a ->
    isGenerating (generationState s) = true /\
    (List.length (slides (player s)) <= List.length a)%nat.

End Session.

(** ** The watermark of an exported frame ([App.tsx], drawSlideContent) *)

Module Frame.

Open Scope float_scope.

(** [Math.min(a, b)]: NaN if an argument is NaN, and -0 below +0. *)
Definition mathMin (a b : float) : float :=
  if is_nan a || is_nan b then nan
  else if a <? b then a
  else if b <? a then b
  else if get_sign a then a else b.

(** [Math.max(a, b)]: NaN if an argument is NaN, and +0 above -0. *)
Definition mathMax (a b : float) : float :=
  if is_nan a || is_nan b then nan
  else if a <? b then b
  else if b <? a then a
  else if get_sign a then b else a.

(** [const watermarkFadeDuration = 1.5;] *)
Definition watermarkFadeDuration : float := 1.5.

(** The opacity computed before the clamp. *)
Definition watermarkRamp (isFirstSlide isLastSlide : bool)
    (elapsedSinceSlideStart slideDuration : float) : float :=
  if isFirstSlide && (elapsedSinceSlideStart <? watermarkFadeDuration)
  then elapsedSinceSlideStart / watermarkFadeDuration
  else if isLastSlide &&
          (slideDuration - watermarkFadeDuration <? elapsedSinceSlideStart)
  then
    let fadeOutTime :=
      elapsedSinceSlideStart - (slideDuration - watermarkFadeDuration) in
    1 - fadeOutTime / watermarkFadeDuration
  else 1.

(** [watermarkAlpha = Math.max(0, Math.min(1, watermarkAlpha))], the
    value assigned to [globalAlpha]. *)
Definition watermarkAlpha (isFirstSlide isLastSlide : bool)
    (elapsedSinceSlideStart slideDuration : float) : float :=
  mathMax 0 (mathMin 1 (watermarkRamp isFirstSlide isLastSlide
                          elapsedSinceSlideStart slideDuration)).

End Frame.

(** ** The narration payload format *)

Module PcmPayload.
Import JsString.
Open Scope N_scope.

(** Modelled from the spec: the encoder of narration payloads, which
    the repository does not contain (the provider produces them).  The
    spec fixes the format: base64 of raw 16-bit signed little-endian
    PCM.  Base64 is the standard alphabet with [=] padding. *)
Definition charOfSextet (v : N) : N :=
  if v <? 26 then 65 + v
  else if v <? 52 then 97 + (v - 26)
  else if v <? 62 then 48 + (v - 52)
  else if v =? 62 then 43
  else 47.

Fixpoint sextetsOfBytes (bytes : list N) : list N :=
  match bytes with
  | a :: b :: c :: rest =>
      a / 4 :: (a mod 4) * 16 + b / 16 :: (b mod 16) * 4 + c / 64
        :: c mod 64 :: sextetsOfBytes rest
  | [a; b] => [a / 4; (a mod 4) * 16 + b / 16; (b mod 16) * 4]
  | [a] => [a / 4; (a mod 4) * 16]
  | [] => []
  end.

Fixpoint paddingOf (bytes : list N) : jsstring :=
  match bytes with
  | _ :: _ :: _ :: rest => paddingOf rest
  | [_; _] => [61]
  | [_] => [61; 61]
  | [] => []
  end.

(** The base64 text of a byte sequence. *)
Definition base64Of (bytes : list N) : jsstring :=
  map charOfSextet (sextetsOfBytes bytes) ++ paddingOf bytes.

(** The two bytes of a signed 16-bit sample, low byte first. *)
Definition bytesOfInt16 (v : Z) : list N :=
  let u := (v mod 65536)%Z in
  [Z.to_N (u mod 256); Z.to_N (u / 256)].

(** The payload of a sequence of samples. *)
Definition payloadOf (samples : list Z) : jsstring :=
  base64Of (flat_map bytesOfInt16 samples).

(** The check that the character of sextet [v] decodes back to [v], is
    not white space and is not the padding character. *)
Definition alphabetCheck (v : N) : bool :=
  match WebAudio.sextetOf (charOfSextet v) with
  | Some v' => (v' =? v)
  | None => false
  end
  && negb (WebAudio.isAsciiWhitespace (charOfSextet v))
  && negb (charOfSextet v =? 61).

End PcmPayload.

(** ** Vocabulary used to state the timeline properties *)

Module TimelineSpec.
Import App.
Open Scope float_scope.

(** Sum of event durations, accumulated left to right from [0] as the
    loop accumulates [currentTime]. *)
Definition sumDurations (tl : list TimelineEvent) : float :=
  fold_left PrimFloat.add (map duration tl) 0.

(** Slide, Transition, Slide, ..., Slide, with slide indices counting up
    from [i] and each transition going from a slide to the next. *)
Inductive Alternating : nat -> list TimelineEvent -> Prop :=
| Alt_last i s d : Alternating i [SlideEvent i s d]
| Alt_step i s d s' d' tl :
    Alternating (S i) tl ->
    Alternating i (SlideEvent i s d :: TransitionEvent i (S i) s' d' :: tl).

Definition Contiguous (tl : list TimelineEvent) : Prop :=
  forall k e1 e2,
    nth_error tl k = Some e1 -> nth_error tl (S k) = Some e2 ->
    startTime e2 = startTime e1 + duration e1.

(** Every event starts where the running clock [t] stands. *)
Fixpoint Chained (t : float) (tl : list TimelineEvent) : Prop :=
  match tl with
  | [] => True
  | e :: rest => startTime e = t /\ Chained (t + duration e) rest
  end.

(** A number that is not NaN and is zero or positive (possibly
    infinite), on the sign-mantissa-exponent form of a number and on
    numbers. *)
Definition NonNegSF (x : spec_float) : Prop :=
  match x with
  | S754_nan => False
  | S754_zero _ => True
  | S754_infinity s => s = false
  | S754_finite s _ _ => s = false
  end.

Definition NonNeg (x : float) : Prop := NonNegSF (Prim2SF x).

(** No event of the timeline ends at NaN. *)
Definition EndsAreNumbers (tl : list TimelineEvent) : Prop :=
  Forall (fun e => is_nan (startTime e + duration e) = false) tl.

End TimelineSpec.

(** ** Vocabulary used to state the retry properties *)

Module RetrySpec.
Import GeminiService.

Section Runs.
Context {W T E : Type}.
Variable asyncFn : W -> (T + E) * W.

(** The world after [k] successive calls of the operation. *)
Fixpoint worldAfter (k : nat) (w : W) : W :=
  match k with
  | O => w
  | S k' => worldAfter k' (snd (asyncFn w))
  end.

(** How call number [k] (counting from 0) ends. *)
Definition outcomeOf (k : nat) (w : W) : T + E :=
  fst (asyncFn (worldAfter k w)).

End Runs.

(** The number of executions of the operation in a run. *)
Fixpoint calls (effects : list Effect) : nat :=
  match effects with
  | [] => O
  | Called :: rest => S (calls rest)
  | Slept _ :: rest => calls rest
  end.

(** The delays slept, in order. *)
Fixpoint sleeps (effects : list Effect) : list Z :=
  match effects with
  | [] => []
  | Called :: rest => sleeps rest
  | Slept d :: rest => d :: sleeps rest
  end.

(** A run is a call, then a sleep and a call for each retry. *)
Definition retryShape (effects : list Effect) : Prop :=
  effects = Called :: flat_map (fun d => [Slept d; Called]) (sleeps effects).

(** Parameters for which the whole numbers of [retryLoop] are the
    numbers of the code, and its delays the time slept: the budget is at
    most 972, so that every [Math.pow(2, attempt - 1)] is an exact
    finite power of two; the first delay is not negative; and the
    largest delay computed, [initialDelay * 2^(maxRetries - 2)] (the
    first delay itself for a budget below 3), is at most 2^31 - 1, the
    longest delay [setTimeout] accepts, so that every delay is a whole
    number far below 2^53, computed exactly. *)
Definition ExactParameters (maxRetries : nat) (initialDelay : Z) : Prop :=
  (maxRetries <= 972)%nat /\
  (0 <= initialDelay)%Z /\
  (initialDelay * 2 ^ Z.of_nat (maxRetries - 2) <= 2147483647)%Z.

(** The time a run spends sleeping. *)
Definition totalSleep (effects : list Effect) : Z :=
  fold_right Z.add 0%Z (sleeps effects).

(** What a run of the retry loop entered at attempt [a] in world [w]
    looks like, for a budget [maxRetries] and a first delay
    [initialDelay]. *)
Definition RunFrom {W T E : Type} (asyncFn : W -> (T + E) * W)
    (maxRetries : nat) (initialDelay : Z) (a : nat) (w : W)
    (run : (T + Thrown E) * list Effect * W) : Prop :=
  let '(r, effects, w') := run in
  (1 <= calls effects)%nat /\
  (a + calls effects <= maxRetries)%nat /\
  retryShape effects /\
  sleeps effects
    = map (fun k => (initialDelay * 2 ^ Z.of_nat k)%Z)
          (seq a (calls effects - 1)) /\
  w' = worldAfter asyncFn (calls effects) w /\
  (forall k, (k < calls effects - 1)%nat ->
             exists e, outcomeOf asyncFn k w = inr e) /\
  match r with
  | inl t => outcomeOf asyncFn (calls effects - 1) w = inl t
  | inr (Raised e) =>
      (a + calls effects = maxRetries)%nat /\
      outcomeOf asyncFn (calls effects - 1) w = inr e
  | inr RetryLogicFailed => False
  end.

End RetrySpec.

(** ** Vocabulary used to state the properties of the service calls *)

Module CallSpec.
Import JsString GeminiService GeminiCalls RetrySpec.

(** A service call made through the retry wrapper with an operation
    [asyncFn] from world [w]: it executes the operation one to three
    times; the first execution that succeeds decides the value through
    [onSuccess], and three failures in a row give [onFailure] after
    sleeps of 2000 and 4000. *)
Definition ServiceRun {W R E A : Type} (asyncFn : W -> (R + E) * W) (w : W)
    (onSuccess : R -> A) (onFailure : A)
    (result : A * list Effect * W) : Prop :=
  let '(value, effects, w') := result in
  (1 <= calls effects <= 3)%nat /\
  w' = worldAfter asyncFn (calls effects) w /\
  (forall k response,
     (k < 3)%nat ->
     outcomeOf asyncFn k w = inl response ->
     (forall j, (j < k)%nat -> exists e, outcomeOf asyncFn j w = inr e) ->
     value = onSuccess response /\ calls effects = S k) /\
  ((forall k, (k < 3)%nat -> exists e, outcomeOf asyncFn k w = inr e) ->
   value = onFailure /\ calls effects = 3%nat /\
   sleeps effects = [2000; 4000]%Z).

(** The value a text call takes from a response: its trimmed text, or
    the failure string when the response has no text. *)
Definition textOr (failure : jsstring) (response : GenerateContentResponse)
  : jsstring :=
  match text response with
  | Some t => trim t
  | None => failure
  end.

(** The value [generateImage] takes from a response. *)
Definition imageOf (response : GenerateContentResponse) : option jsstring :=
  match parts response with
  | Some ps => firstInlineData ps
  | None => None
  end.

End CallSpec.

(** ** Vocabulary used to state the pipeline properties *)

Module PipelineSpec.
Import GeminiService Pipeline.

(** The pauses of a run, in order. *)
Fixpoint pauses (events : list PipelineEvent) : list Z :=
  match events with
  | [] => []
  | Paused ms :: rest => ms :: pauses rest
  | ServiceCall _ _ :: rest => pauses rest
  end.

Definition sameKind (a b : ServiceKind) : bool :=
  match a, b with
  | Translate, Translate | Explain, Explain
  | Image, Image | Speech, Speech => true
  | _, _ => false
  end.

(** The number of calls of one service in a run. *)
Fixpoint serviceCalls (kind : ServiceKind) (events : list PipelineEvent)
  : nat :=
  match events with
  | [] => O
  | ServiceCall k _ :: rest =>
      if sameKind kind k then S (serviceCalls kind rest)
      else serviceCalls kind rest
  | Paused _ :: rest => serviceCalls kind rest
  end.

(** The provider rejects every call. *)
Definition Outage {W R E : Type}
    (generateContent :
       R -> W -> (GeminiCalls.GenerateContentResponse + E) * W)
  : Prop :=
  forall request w, exists e, fst (generateContent request w) = inr e.

End PipelineSpec.

(** ** Vocabulary used to state the regeneration properties *)

Module SlideSpec.
Import JsString App.

(** The invariant of the slide sequence: ids are dense, zero-based and
    equal to the array position. *)
Definition DenseIds (slides : list Slide) : Prop :=
  forall k s, nth_error slides k = Some s -> id s = k.

(** Step 1 of [generateSlides] pushes, for line [i],
    [{ id: i, english, hindi, imageUrl: null, script, audioData: null }]. *)
Fixpoint pushSlides (i : nat) (lines : list (jsstring * jsstring * jsstring))
  : list Slide :=
  match lines with
  | [] => []
  | (english, hindi, script) :: rest =>
      mkSlide i english hindi None script None :: pushSlides (S i) rest
  end.

(** The fields a regeneration leaves alone. *)
Definition keepsAllButImageUrl (s s' : Slide) : Prop :=
  id s' = id s /\ english s' = english s /\ hindi s' = hindi s /\
  script s' = script s /\ audioData s' = audioData s.

Definition keepsAllButHindi (s s' : Slide) : Prop :=
  id s' = id s /\ english s' = english s /\ imageUrl s' = imageUrl s /\
  script s' = script s /\ audioData s' = audioData s.

Definition keepsAllButScriptAndAudio (s s' : Slide) : Prop :=
  id s' = id s /\ english s' = english s /\ hindi s' = hindi s /\
  imageUrl s' = imageUrl s.

(** [after] has the slides of [before] at the same positions, identical
    except at position [target], where the fields related by [keeps] are
    kept. *)
Definition FrameAt (keeps : Slide -> Slide -> Prop) (target : nat)
    (before after : list Slide) : Prop :=
  List.length after = List.length before /\
  forall k s, nth_error before k = Some s ->
    exists s', nth_error after k = Some s' /\
               (k <> target -> s' = s) /\
               (k = target -> keeps s s').

End SlideSpec.

(** ** Vocabulary used to state the text properties *)

Module TextSpec.
Import JsString.

(** [pieces.join(sep)] for a one-character separator. *)
Fixpoint joinWith (sep : N) (pieces : list jsstring) : jsstring :=
  match pieces with
  | [] => []
  | p :: rest =>
      match rest with
      | [] => p
      | _ :: _ => p ++ sep :: joinWith sep rest
      end
  end.

(** The font sizes the fitting loop of [createTextCache] visits:
    48, 46, ..., 10. *)
Definition triedSizes : list Z :=
  map (fun k => (48 - 2 * Z.of_nat k)%Z) (seq 0 20).

End TextSpec.

(** ** Sample lessons used to exercise the definitions *)

Module Samples.
Import JsString App.

(** "jangal" in Devanagari. *)
Definition jangal : jsstring := [2332; 2306; 2327; 2354]%N.

(** No narration; narration of two frames
    (bytes 00 00 FF 7F, samples 0 and 32767). *)
Definition silentSlide (i : nat) : Slide :=
  mkSlide i (lit "The woods are lovely, dark and deep,") jangal
          None (lit " ") None.

Definition shortSlide (i : nat) : Slide :=
  mkSlide i (lit "but I have promises to keep,") jangal
          (Some (lit "iVBORw0KGgo=")) (lit "vaade") (Some (lit "AAD/fw==")).

Definition lesson : list Slide :=
  [silentSlide 0; shortSlide 1; silentSlide 2].


(** An operation that fails until it has been called twice; the world
    counts the calls. *)
Definition flakyOperation (w : nat) : (nat + unit) * nat :=
  (if (w <? 2)%nat then inr tt else inl w, S w).

(** The literal of the end-to-end scenario. *)
Definition woods : jsstring :=
  lit "The woods are lovely, dark and deep, but I have promises to keep.".

(** A provider whose every call is rejected, and a parser never reached. *)
Definition failingProvider (text : jsstring) (w : unit)
  : (option jsstring + unit) * unit := (inr tt, w).

Definition noParse (s : jsstring) : option GeminiService.Json := None.

End Samples.

(* ================================================================== *)
(** * Properties *)

(** ** Timeline *)

Section TimelineProofs.
Import App TimelineSpec.
Open Scope float_scope.

Lemma Chained_nth : forall tl t k e1 e2,
  Chained t tl ->
  nth_error tl k = Some e1 -> nth_error tl (S k) = Some e2 ->
  startTime e2 = startTime e1 + duration e1.
Proof.
  induction tl as [|e tl IH]; intros t k e1 e2 Hc H1 H2.
  - destruct k; discriminate.
  - destruct Hc as [Hs Hc]. destruct k as [|k].
    + simpl in H1. injection H1 as <-.
      destruct tl as [|e' tl']; [discriminate|].
      simpl in H2. injection H2 as <-.
      destruct Hc as [Hs' _]. now rewrite Hs', Hs.
    + simpl in H1. exact (IH _ k e1 e2 Hc H1 H2).
Qed.

Lemma timelineLoop_unfold : forall td i t d d' rest,
  timelineLoop td i t (d :: d' :: rest) =
  (SlideEvent i t d :: TransitionEvent i (S i) (t + d) td
     :: fst (timelineLoop td (S i) (t + d + td) (d' :: rest)),
   snd (timelineLoop td (S i) (t + d + td) (d' :: rest))).
Proof.
  intros.
  change (timelineLoop td i t (d :: d' :: rest)) with
    (let '(evs, total) := timelineLoop td (S i) (t + d + td) (d' :: rest) in
     (SlideEvent i t d :: TransitionEvent i (S i) (t + d) td :: evs, total)).
  destruct (timelineLoop td (S i) (t + d + td) (d' :: rest)); reflexivity.
Qed.

Lemma timelineLoop_spec : forall ds td i t,
  ds <> [] ->
  let tl := fst (timelineLoop td i t ds) in
  let total := snd (timelineLoop td i t ds) in
  Alternating i tl /\
  Chained t tl /\
  total = fold_left PrimFloat.add (map duration tl) t /\
  map duration (filter isSlide tl) = ds /\
  Forall (fun e => duration e = td) (filter isTransition tl) /\
  List.length (filter isSlide tl) = List.length ds /\
  List.length (filter isTransition tl) = (List.length ds - 1)%nat.
Proof.
  induction ds as [|d ds IH]; intros td i t Hne; [congruence|].
  destruct ds as [|d' rest].
  - cbn. repeat split; try constructor.
  - rewrite timelineLoop_unfold. cbn [fst snd].
    pose proof (IH td (S i) (t + d + td) ltac:(discriminate)) as H.
    cbv zeta in H.
    set (r := timelineLoop td (S i) (t + d + td) (d' :: rest)) in *.
    clearbody r. destruct H as (Ha & Hc & Ht & Hd & Htd & Hn & Hm).
    repeat split.
    + now constructor.
    + exact Hc.
    + exact Ht.
    + cbn. now rewrite Hd.
    + cbn. constructor; [reflexivity | exact Htd].
    + cbn. now rewrite Hn.
    + cbn. rewrite Hm. cbn. lia.
Qed.

End TimelineProofs.

Section TimelineClaims.
Import App TimelineSpec.
Open Scope float_scope.

Lemma Chained_head : forall t e rest, Chained t (e :: rest) -> startTime e = t.
Proof. intros t e rest [H _]. exact H. Qed.

Lemma Chained_Contiguous : forall t tl, Chained t tl -> Contiguous tl.
Proof. intros t tl H k e1 e2. now apply Chained_nth with (t := t). Qed.

Lemma slideDurations_length : forall slides ds,
  slideDurations slides = Ok ds -> List.length ds = List.length slides.
Proof.
  induction slides as [|s slides IH]; intros ds H; cbn in H.
  - injection H as <-. reflexivity.
  - destruct (slideDuration s); [|discriminate].
    destruct (slideDurations slides) as [ds'|]; [|discriminate].
    injection H as <-. cbn. now rewrite (IH ds').
Qed.

Lemma Alternating_nonempty : forall i tl, Alternating i tl -> tl <> [].
Proof. intros i tl H. destruct H; discriminate. Qed.

(** C1.  For a non-empty list of slides whose durations resolved to [ds],
    the timeline built from [ds] (for any transition duration, zero in
    the export) alternates Slide, Transition, ..., Slide with slide [i]
    lasting [ds[i]]; it has one slide event per slide and one transition
    fewer; its first event starts at 0; every later event starts at the
    start of its predecessor plus the predecessor's duration; and
    [totalDuration] is the sum of the durations of the events. *)
Theorem timeline_alternates_and_is_contiguous :
  forall (td : float) (slides : list Slide) (ds : list float),
    slides <> [] ->
    slideDurations slides = Ok ds ->
    let tl := fst (buildTimelineWith td ds) in
    let totalDuration := snd (buildTimelineWith td ds) in
    Alternating 0 tl /\
    List.length (filter isSlide tl) = List.length slides /\
    List.length (filter isTransition tl) = (List.length slides - 1)%nat /\
    map duration (filter isSlide tl) = ds /\
    (exists e rest, tl = e :: rest /\ startTime e = 0) /\
    Contiguous tl /\
    totalDuration = sumDurations tl.
Proof.
  intros td slides ds Hne Hds tl total.
  pose proof (slideDurations_length _ _ Hds) as Hlen.
  assert (Hds_ne : ds <> []).
  { destruct ds; [|discriminate]. destruct slides; [congruence|discriminate]. }
  destruct (timelineLoop_spec ds td 0%nat 0 Hds_ne)
    as (Ha & Hc & Ht & Hd & _ & Hn & Hm).
  fold (buildTimelineWith td ds) in *. fold tl in Ha, Hc, Ht, Hd, Hn, Hm.
  repeat split; try assumption.
  - now rewrite Hn.
  - now rewrite Hm, Hlen.
  - destruct tl as [|e rest] eqn:E.
    + now apply Alternating_nonempty in Ha.
    + exists e, rest. split; [reflexivity|]. exact (Chained_head _ _ _ Hc).
  - exact (Chained_Contiguous _ _ Hc).
Qed.

End TimelineClaims.

Section TimelineWitness.
Import App TimelineSpec Samples.
Open Scope float_scope.

Lemma timeline_alternates_and_is_contiguous_witness :
  lesson <> [] /\
  slideDurations lesson = Ok [3; 3; 3] /\
  Alternating 0 (fst (buildTimeline [3; 3; 3])) /\
  Contiguous (fst (buildTimeline [3; 3; 3])) /\
  snd (buildTimeline [3; 3; 3]) = sumDurations (fst (buildTimeline [3; 3; 3])).
Proof.
  assert (Hne : lesson <> []) by discriminate.
  assert (Hds : slideDurations lesson = Ok [3; 3; 3]) by reflexivity.
  pose proof (timeline_alternates_and_is_contiguous
                transitionDuration lesson [3; 3; 3] Hne Hds) as H.
  cbv zeta in H. destruct H as (Ha & _ & _ & _ & _ & Hc & Ht).
  repeat split; assumption.
Defined.

End TimelineWitness.

(** ** Comparisons of binary64 numbers *)

Section FloatFacts.
Open Scope float_scope.

Lemma SFcompare_antisym : forall x y,
  SFcompare y x = option_map CompOpp (SFcompare x y).
Proof.
  intros x y.
  destruct x as [sx|sx| |sx mx ex], y as [sy|sy| |sy my ey]; cbn;
    try reflexivity;
    try (destruct sx; reflexivity); try (destruct sy; reflexivity);
    try (destruct sx, sy; reflexivity).
  destruct sx, sy; cbn; try reflexivity;
    rewrite (Z.compare_antisym ey ex);
    destruct (ey ?= ex)%Z; cbn; try reflexivity;
    rewrite !Pos.compare_cont_spec; cbn;
    rewrite (Pos.compare_antisym my mx);
    now destruct (my ?= mx)%positive.
Qed.

(** Adding [+0] does not change how a number compares. *)
Lemma SFadd_zero_compare : forall x y,
  SFcompare y (SF64add x (S754_zero false)) = SFcompare y x.
Proof.
  intros x y. destruct x as [[|]|[|]| |sx mx ex]; reflexivity.
Qed.

(** No number lies in [[s, s + 0)]. *)
Lemma leb_ltb_add_zero : forall s e : float,
  (s <=? e) && (e <? s + 0) = false.
Proof.
  intros s e.
  rewrite FloatAxioms.leb_spec, FloatAxioms.ltb_spec, FloatAxioms.add_spec.
  change (Prim2SF 0) with (S754_zero false).
  unfold SFleb, SFltb. rewrite SFadd_zero_compare.
  rewrite (SFcompare_antisym (Prim2SF s) (Prim2SF e)).
  destruct (SFcompare (Prim2SF s) (Prim2SF e)) as [[| |]|]; reflexivity.
Qed.

End FloatFacts.

Section TransitionClaims.
Import App TimelineSpec.
Open Scope float_scope.

Lemma transitions_have_configured_duration : forall td ds e,
  In e (fst (buildTimelineWith td ds)) -> isTransition e = true ->
  duration e = td.
Proof.
  intros td ds e Hin Htr.
  destruct ds as [|d ds]; [destruct Hin|].
  destruct (timelineLoop_spec (d :: ds) td 0%nat 0 ltac:(discriminate))
    as (_ & _ & _ & _ & Hall & _).
  rewrite Forall_forall in Hall. apply Hall.
  apply filter_In. split; assumption.
Qed.

Lemma transition_never_active : forall ds elapsed e,
  In e (fst (buildTimeline ds)) -> isTransition e = true ->
  isActive elapsed e = false.
Proof.
  intros ds elapsed e Hin Htr. unfold isActive.
  rewrite (transitions_have_configured_duration _ _ _ Hin Htr).
  apply leb_ltb_add_zero.
Qed.

(** C9.  With the configured transition duration 0, for every list of
    slide durations and every elapsed time (any number at all), no
    transition event of the timeline is active, the event lookup of the
    render loop returns a slide event or nothing, and the tick does not
    take the transition-drawing branch. *)
Theorem zero_duration_transitions_never_render :
  forall (ds : list float) (elapsed : float),
    let tl := fst (buildTimeline ds) in
    let totalDuration := snd (buildTimeline ds) in
    (forall e, In e tl -> isTransition e = true ->
               isActive elapsed e = false) /\
    match currentEvent elapsed tl with
    | Some e => isSlide e = true
    | None => True
    end /\
    match renderBranch elapsed tl totalDuration with
    | DrawTransition _ _ => False
    | _ => True
    end.
Proof.
  intros ds elapsed tl total.
  assert (Hna : forall e, In e tl -> isTransition e = true ->
                          isActive elapsed e = false)
    by (intros e; apply transition_never_active).
  assert (Hcur : match currentEvent elapsed tl with
                 | Some e => isSlide e = true
                 | None => True
                 end).
  { unfold currentEvent. destruct (find (isActive elapsed) tl) as [e|] eqn:F.
    - apply find_some in F. destruct F as [Hin Hact].
      destruct (isSlide e) eqn:Hs; [reflexivity|].
      rewrite (Hna e Hin) in Hact; [discriminate|].
      unfold isTransition. now rewrite Hs.
    - exact I. }
  split; [exact Hna|]. split; [exact Hcur|].
  unfold renderBranch. destruct (currentEvent elapsed tl) as [[i s d|f t s d]|].
  - exact I.
  - discriminate Hcur.
  - destruct (total <=? elapsed); exact I.
Qed.

End TransitionClaims.

(** ** The retry policy *)

Section RetryClaims.
Import GeminiService RetrySpec.
Context {W T E : Type}.
Variable asyncFn : W -> (T + E) * W.

(** The loop ends within [maxRetries - attempt + 1] iterations, whatever
    the operation does. *)
Lemma retryLoop_total : forall maxRetries initialDelay fuel attempt w,
  (maxRetries - attempt < fuel)%nat ->
  exists r, retryLoop asyncFn maxRetries initialDelay fuel attempt w = Some r.
Proof.
  intros maxRetries initialDelay fuel.
  induction fuel as [|fuel IH]; intros attempt w Hfuel; [lia|].
  cbn [retryLoop].
  destruct (attempt <? maxRetries)%nat eqn:Hlt; [|eexists; reflexivity].
  apply Nat.ltb_lt in Hlt.
  destruct (asyncFn w) as [[t|e] w']; [eexists; reflexivity|].
  destruct (maxRetries <=? S attempt)%nat eqn:Hge; [eexists; reflexivity|].
  apply Nat.leb_gt in Hge.
  destruct (IH (S attempt) w' ltac:(lia)) as [[[r eff] w''] ->].
  eexists; reflexivity.
Qed.

Lemma withRetryFrom_total : forall maxRetries initialDelay w,
  exists r, withRetryFrom asyncFn maxRetries initialDelay w = Some r.
Proof.
  intros. unfold withRetryFrom. apply retryLoop_total. lia.
Qed.

(** C5.  A call wrapped by the retry policy always completes.  The
    operation is executed at least once and at most 3 times, each
    execution starting in the world the previous one left; the run is a
    call followed by a sleep and a call per retry; the sleep before
    retry [k] lasts 2000 * 2^(k-1), that is 2000 and then 4000; every
    execution before the last one failed; a fulfilled result is the
    value of the last execution, unchanged; a rejection happens only
    after 3 executions and carries the error of the third. *)
Theorem withRetry_three_attempts_with_backoff :
  forall w : W,
  exists r effects w',
    withRetry asyncFn w = Some (r, effects, w') /\
    (1 <= calls effects <= 3)%nat /\
    retryShape effects /\
    sleeps effects = firstn (calls effects - 1) [2000; 4000]%Z /\
    (forall k d, nth_error (sleeps effects) k = Some d ->
                 d = (2000 * 2 ^ Z.of_nat k)%Z) /\
    w' = worldAfter asyncFn (calls effects) w /\
    (forall k, (k < calls effects - 1)%nat ->
               exists e, outcomeOf asyncFn k w = inr e) /\
    match r with
    | inl t => outcomeOf asyncFn (calls effects - 1) w = inl t
    | inr (Raised e) =>
        calls effects = 3%nat /\ outcomeOf asyncFn 2 w = inr e
    | inr RetryLogicFailed => False
    end.
Proof.
  intros w. unfold withRetry, withRetryFrom, outcomeOf, retryShape.
  cbn [retryLoop Nat.ltb Nat.leb].
  destruct (asyncFn w) as [[t1|e1] w1] eqn:E1.
  { exists (inl t1), [Called], w1. cbn. rewrite E1.
    repeat split; try lia; try reflexivity.
    intros [|[|k]] d H; cbn in H; discriminate. }
  cbn. destruct (asyncFn w1) as [[t2|e2] w2] eqn:E2.
  { exists (inl t2), [Called; Slept 2000; Called], w2. cbn.
    rewrite E1. cbn. rewrite E2.
    repeat split; try lia; try reflexivity.
    - intros [|[|k]] d H; cbn in H; try discriminate.
      injection H as <-. reflexivity.
    - intros [|k] Hk; [|lia]. cbn. rewrite E1. now exists e1. }
  cbn. destruct (asyncFn w2) as [[t3|e3] w3] eqn:E3.
  { exists (inl t3), [Called; Slept 2000; Called; Slept 4000; Called], w3.
    cbn. rewrite E1. cbn. rewrite E2. cbn. rewrite E3.
    repeat split; try lia; try reflexivity.
    - intros [|[|[|k]]] d H; cbn in H; try discriminate;
        injection H as <-; reflexivity.
    - intros [|[|k]] Hk; [| |lia]; cbn; rewrite E1; cbn;
        [now exists e1 | rewrite E2; now exists e2]. }
  exists (inr (Raised e3)), [Called; Slept 2000; Called; Slept 4000; Called], w3.
  cbn. rewrite E1. cbn. rewrite E2. cbn. rewrite E3.
  repeat split; try lia; try reflexivity.
  - intros [|[|[|k]]] d H; cbn in H; try discriminate;
      injection H as <-; reflexivity.
  - intros [|[|k]] Hk; [| |lia]; cbn; rewrite E1; cbn;
      [now exists e1 | rewrite E2; now exists e2].
Qed.

End RetryClaims.

(** ** Text segmentation *)

Section SegmentationFacts.
Import JsString GeminiService.

Lemma trimStart_length : forall s,
  (List.length (trimStart s) <= List.length s)%nat.
Proof.
  induction s as [|c s IH]; cbn; [lia|].
  destruct (isWhiteSpace c); cbn; lia.
Qed.

Lemma trim_length : forall s, (length (trim s) <= length s)%nat.
Proof.
  intros s. unfold length, trim, trimEnd.
  rewrite length_rev.
  etransitivity; [apply trimStart_length|].
  rewrite length_rev. apply trimStart_length.
Qed.

Lemma Forall_filter : forall (A : Type) (f : A -> bool) (P : A -> Prop) l,
  (forall x, f x = true -> P x) -> Forall P (filter f l).
Proof.
  intros A f P l H. apply Forall_forall. intros x Hin.
  apply filter_In in Hin. apply H, Hin.
Qed.

(** Every entry the fallback keeps has more than two characters left
    after trimming, hence is not blank and is longer than two. *)
Lemma fallbackSplit_entries : forall text,
  Forall (fun line => (2 < length (trim line))%nat /\
                      (2 < length line)%nat /\
                      trim line <> [])
         (fallbackSplit text).
Proof.
  intros text. unfold fallbackSplit. apply Forall_filter.
  intros line H. apply Nat.ltb_lt in H.
  pose proof (trim_length line). repeat split; try lia.
  intros E. rewrite E in H. cbn in H. lia.
Qed.

Lemma isEmpty_false : forall s, negb (isEmpty s) = true -> s <> [].
Proof. intros [|c s] H; [discriminate H|discriminate]. Qed.

End SegmentationFacts.

Section SegmentationClaims.
Import JsString GeminiService.
Context {W E : Type}.
Variable generateContent : jsstring -> W -> (option jsstring + E) * W.
Variable JSON_parse : jsstring -> option Json.

Lemma parseSentences_nonblank : forall response_text sentences,
  parseSentences JSON_parse response_text = Some sentences ->
  Forall (fun s => trim s <> []) sentences.
Proof.
  intros rt sentences H. unfold parseSentences in H.
  destruct rt as [txt|]; [|discriminate].
  destruct (JSON_parse (trim txt)) as [[| | | |items|]|]; try discriminate.
  destruct (allStrings items) as [l|]; [|discriminate].
  injection H as <-. apply Forall_filter. intros x. apply isEmpty_false.
Qed.

(** C3, as the code has it.  Segmentation always returns; every string
    it returns is non-blank, but the sequence may be empty (the caller
    turns an empty result into an error).  Whenever the provider call
    fails the result is the output of the fallback splitter, and every
    entry of that output has more than two characters, also after
    trimming, so it is neither blank nor of length 2 or less. *)
Theorem segmentation_returns_nonblank_strings :
  forall (text : jsstring) (w : W),
  exists sentences w',
    splitTextIntoSentences generateContent JSON_parse text w
      = Some (sentences, w') /\
    Forall (fun s => trim s <> []) sentences /\
    (forall e effects w1,
       withRetry (generateContent text) w = Some (inr e, effects, w1) ->
       sentences = fallbackSplit text /\ w' = w1) /\
    Forall (fun line => (2 < length (trim line))%nat /\
                        (2 < length line)%nat /\
                        trim line <> [])
           (fallbackSplit text).
Proof.
  intros text w. unfold splitTextIntoSentences.
  assert (Hfb : Forall (fun s => trim s <> []) (fallbackSplit text)).
  { eapply Forall_impl; [|apply fallbackSplit_entries].
    cbn. intros a (_ & _ & H). exact H. }
  destruct (withRetryFrom_total (generateContent text) 3 2000 w)
    as [[[r eff] w1] Hr].
  unfold withRetry. rewrite Hr.
  destruct r as [rt|e].
  - destruct (parseSentences JSON_parse rt) as [sentences|] eqn:P.
    + exists sentences, w1. repeat split.
      * eapply parseSentences_nonblank; eassumption.
      * discriminate.
      * discriminate.
      * apply fallbackSplit_entries.
    + exists (fallbackSplit text), w1. repeat split.
      * exact Hfb.
      * discriminate.
      * apply fallbackSplit_entries.
  - exists (fallbackSplit text), w1. repeat split.
    + exact Hfb.
    + congruence.
    + apply fallbackSplit_entries.
Qed.

(** C4, as the code has it.  When the provider call fails on the literal
    of the scenario, segmentation returns exactly one fallback segment:
    the literal without its final period.  The literal has no newline
    and no other period, and commas do not separate. *)
Theorem woods_fallback_is_one_segment :
  forall (w : W) e effects w1,
    withRetry (generateContent Samples.woods) w = Some (inr e, effects, w1) ->
    splitTextIntoSentences generateContent JSON_parse Samples.woods w
      = Some ([lit "The woods are lovely, dark and deep, but I have promises to keep"],
              w1).
Proof.
  intros w e effects w1 H. unfold splitTextIntoSentences. rewrite H.
  reflexivity.
Qed.

End SegmentationClaims.

Section SegmentationExamples.
Import JsString GeminiService Samples.

(** A non-empty text on which a failed provider call leaves no segment. *)
Lemma segmentation_of_a_period_is_empty :
  lit "." <> [] /\
  JsString.trim (lit ".") <> [] /\
  (exists e effects w1,
     withRetry (failingProvider (lit ".")) tt = Some (inr e, effects, w1)) /\
  splitTextIntoSentences failingProvider noParse (lit ".") tt = Some ([], tt).
Proof.
  repeat split; try discriminate.
  eexists _, _, _. reflexivity.
Qed.

(** The literal of the scenario gives one segment, not two. *)
Lemma woods_fallback_is_not_two_segments :
  (exists e effects w1,
     withRetry (failingProvider woods) tt = Some (inr e, effects, w1)) /\
  (exists segment,
     splitTextIntoSentences failingProvider noParse woods tt
       = Some ([segment], tt)) /\
  List.length (fallbackSplit woods) = 1%nat /\
  List.length (fallbackSplit woods) <> 2%nat.
Proof.
  repeat split.
  - eexists _, _, _. reflexivity.
  - eexists. reflexivity.
  - intros H. discriminate H.
Qed.

Lemma woods_fallback_is_one_segment_witness :
  withRetry (failingProvider woods) tt
    = Some (inr (Raised tt),
            [Called; Slept 2000; Called; Slept 4000; Called], tt) /\
  splitTextIntoSentences failingProvider noParse woods tt
    = Some ([lit "The woods are lovely, dark and deep, but I have promises to keep"],
            tt).
Proof.
  split; [reflexivity|].
  exact (woods_fallback_is_one_segment failingProvider noParse tt
           (Raised tt) [Called; Slept 2000; Called; Slept 4000; Called] tt
           eq_refl).
Defined.

End SegmentationExamples.

(** ** Single-slide regeneration *)

Section RegenerationFacts.
Import JsString App SlideSpec.

Lemma pushSlides_nth : forall lines i k s,
  nth_error (pushSlides i lines) k = Some s -> id s = (i + k)%nat.
Proof.
  induction lines as [|[[en hi] sc] lines IH]; intros i k s H.
  - destruct k; discriminate.
  - destruct k as [|k]; cbn in H.
    + injection H as <-. cbn. lia.
    + rewrite (IH _ _ _ H). lia.
Qed.

(** The slides [generateSlides] creates satisfy the invariant. *)
Lemma pushSlides_dense : forall lines, DenseIds (pushSlides 0 lines).
Proof. intros lines k s H. now rewrite (pushSlides_nth _ _ _ _ H). Qed.

Lemma FrameAt_refl : forall keeps target slides,
  (forall s, keeps s s) -> FrameAt keeps target slides slides.
Proof.
  intros keeps target slides Hk. split; [reflexivity|].
  intros k s H. exists s. repeat split; auto.
Qed.

(** Mapping an update over the slides whose id is [target] changes
    position [target] only, when ids are positions. *)
Lemma FrameAt_map : forall keeps target (upd : Slide -> Slide) prev,
  DenseIds prev ->
  (forall s, keeps s (upd s)) ->
  FrameAt keeps target prev
    (map (fun s => if (id s =? target)%nat then upd s else s) prev).
Proof.
  intros keeps target upd prev Hd Hk. split; [apply length_map|].
  intros k s H. rewrite nth_error_map, H. cbn.
  rewrite (Hd k s H).
  destruct (k =? target)%nat eqn:Ek.
  - apply Nat.eqb_eq in Ek. exists (upd s). repeat split; auto. congruence.
  - apply Nat.eqb_neq in Ek. exists s. repeat split; auto. congruence.
Qed.

Lemma DenseIds_map : forall target (upd : Slide -> Slide) prev,
  DenseIds prev -> (forall s, id (upd s) = id s) ->
  DenseIds (map (fun s => if (id s =? target)%nat then upd s else s) prev).
Proof.
  intros target upd prev Hd Hid k s H. rewrite nth_error_map in H.
  destruct (nth_error prev k) as [s0|] eqn:E; [|discriminate].
  cbn in H. injection H as <-.
  destruct (id s0 =? target)%nat; [rewrite Hid|]; exact (Hd k s0 E).
Qed.

End RegenerationFacts.

Section RegenerationClaims.
Import JsString App SlideSpec.

(** C10.  On slide sequences whose ids are their positions, each
    regeneration handler returns a sequence of the same length in which
    every slide at a position other than [currentSlideIndex] is the
    slide that was there, and the slide at [currentSlideIndex] keeps its
    id and every field but the regenerated ones (imageUrl; hindi; script
    and audioData); this holds whether the service calls resolve or are
    rejected, and the ids remain the positions. *)
Theorem regeneration_changes_only_its_fields :
  forall (slides prevSlides : list Slide) (currentSlideIndex : nat)
         (generateImage : Slide -> Awaited (option jsstring))
         (translateText generateExplanation : Slide -> Awaited jsstring)
         (generateSpeech : jsstring -> Awaited (option jsstring)),
    DenseIds slides ->
    DenseIds prevSlides ->
    let afterImage :=
      handleRegenerateImage slides currentSlideIndex generateImage
                            prevSlides in
    let afterTranslation :=
      handleRegenerateTranslation slides currentSlideIndex translateText
                                  prevSlides in
    let afterScript :=
      handleRegenerateScript slides currentSlideIndex generateExplanation
                             generateSpeech prevSlides in
    (FrameAt keepsAllButImageUrl currentSlideIndex prevSlides afterImage /\
     DenseIds afterImage) /\
    (FrameAt keepsAllButHindi currentSlideIndex prevSlides afterTranslation /\
     DenseIds afterTranslation) /\
    (FrameAt keepsAllButScriptAndAudio currentSlideIndex prevSlides
             afterScript /\
     DenseIds afterScript).
Proof.
  intros slides prev idx gi tt ge gs Hs Hp.
  cbv zeta.
  unfold handleRegenerateImage, handleRegenerateTranslation,
    handleRegenerateScript.
  assert (Hrefl : forall keeps, (forall s, keeps s s) ->
                     FrameAt keeps idx prev prev)
    by (intros; now apply FrameAt_refl).
  destruct (nth_error slides idx) as [slide|] eqn:E.
  - rewrite (Hs idx slide E).
    refine (conj (conj _ _) (conj (conj _ _) (conj _ _))).
    + destruct (gi slide) as [v|].
      * apply (FrameAt_map _ idx (fun s => withImageUrl s v) prev Hp).
        intros s. repeat split.
      * apply Hrefl. intros s. repeat split.
    + destruct (gi slide) as [v|]; [|exact Hp].
      now apply (DenseIds_map idx (fun s => withImageUrl s v)).
    + destruct (tt slide) as [v|].
      * apply (FrameAt_map _ idx (fun s => withHindi s v) prev Hp).
        intros s. repeat split.
      * apply Hrefl. intros s. repeat split.
    + destruct (tt slide) as [v|]; [|exact Hp].
      now apply (DenseIds_map idx (fun s => withHindi s v)).
    + destruct (ge slide) as [newScript|];
        [destruct (gs newScript) as [v|]|].
      * apply (FrameAt_map _ idx
                 (fun s => withScriptAndAudio s newScript v) prev Hp).
        intros s. repeat split.
      * apply Hrefl. intros s. repeat split.
      * apply Hrefl. intros s. repeat split.
    + destruct (ge slide) as [newScript|];
        [destruct (gs newScript) as [v|]|]; try exact Hp.
      now apply (DenseIds_map idx
                   (fun s => withScriptAndAudio s newScript v)).
  - refine (conj (conj _ Hp) (conj (conj _ Hp) (conj _ Hp)));
      apply Hrefl; intros s; repeat split.
Qed.

End RegenerationClaims.

Section RegenerationWitness.
Import JsString App SlideSpec Samples.

Lemma lesson_dense : DenseIds lesson.
Proof.
  intros [|[|[|k]]] s H; cbn in H; try (injection H as <-; reflexivity).
  destruct k; discriminate H.
Defined.

Lemma regeneration_changes_only_its_fields_witness :
  DenseIds lesson /\
  FrameAt keepsAllButImageUrl 1 lesson
    (handleRegenerateImage lesson 1 (fun _ => Resolved (Some (lit "UE5H")))
                           lesson) /\
  FrameAt keepsAllButHindi 1 lesson
    (handleRegenerateTranslation lesson 1 (fun _ => Rejected) lesson) /\
  FrameAt keepsAllButScriptAndAudio 1 lesson
    (handleRegenerateScript lesson 1 (fun _ => Resolved (lit "nayi vyakhya"))
                            (fun _ => Resolved None) lesson).
Proof.
  pose proof (regeneration_changes_only_its_fields lesson lesson 1
                (fun _ => Resolved (Some (lit "UE5H")))
                (fun _ => Rejected)
                (fun _ => Resolved (lit "nayi vyakhya"))
                (fun _ => Resolved None)
                lesson_dense lesson_dense) as H.
  cbv zeta in H. destruct H as ((H1 & _) & (H2 & _) & (H3 & _)).
  exact (conj lesson_dense (conj H1 (conj H2 H3))).
Defined.

End RegenerationWitness.

(* ================================================================== *)
(** * Further properties of the modelled code *)

(** ** The retry wrapper with other parameters than the defaults *)

Section RetryGeneral.
Import GeminiService RetrySpec.
Context {W T E : Type}.
Variable asyncFn : W -> (T + E) * W.
Variable maxRetries : nat.
Variable initialDelay : Z.

Lemma outcomeOf_S : forall k w,
  outcomeOf asyncFn (S k) w = outcomeOf asyncFn k (snd (asyncFn w)).
Proof. reflexivity. Qed.

Lemma retryLoop_run : forall fuel a w,
  (a < maxRetries)%nat -> (maxRetries - a < fuel)%nat ->
  exists run,
    retryLoop asyncFn maxRetries initialDelay fuel a w = Some run /\
    RunFrom asyncFn maxRetries initialDelay a w run.
Proof.
  induction fuel as [|fuel IH]; intros a w Ha Hfuel; [lia|].
  cbn [retryLoop].
  apply Nat.ltb_lt in Ha. rewrite Ha. apply Nat.ltb_lt in Ha.
  destruct (asyncFn w) as [[t|e] w1] eqn:E1.
  - exists (inl t, [Called], w1). split; [reflexivity|].
    unfold RunFrom, retryShape, outcomeOf. cbn. rewrite E1.
    repeat split; try lia; try reflexivity.
  - destruct (maxRetries <=? S a)%nat eqn:Hge.
    + apply Nat.leb_le in Hge.
      exists (inr (Raised e), [Called], w1). split; [reflexivity|].
      unfold RunFrom, retryShape, outcomeOf. cbn. rewrite E1.
      repeat split; try lia; try reflexivity.
    + apply Nat.leb_gt in Hge.
      destruct (IH (S a) w1 ltac:(lia) ltac:(lia))
        as ([[r eff] w2] & -> & Hrun).
      eexists. split; [reflexivity|].
      unfold RunFrom in *.
      destruct Hrun as (Hc & Hle & Hshape & Hsl & Hw & Hfail & Hr).
      assert (Hcalls : calls (Called :: Slept
                (initialDelay * 2 ^ (Z.of_nat (S a) - 1)) :: eff)
              = S (calls eff)) by reflexivity.
      rewrite Hcalls.
      replace (S (calls eff) - 1)%nat with (S (calls eff - 1)) by lia.
      repeat split.
      * lia.
      * lia.
      * unfold retryShape in *. cbn. rewrite <- Hshape. reflexivity.
      * change (sleeps (Called :: Slept
                (initialDelay * 2 ^ (Z.of_nat (S a) - 1)) :: eff))
          with ((initialDelay * 2 ^ (Z.of_nat (S a) - 1))%Z :: sleeps eff).
        rewrite Hsl. cbn [seq map]. f_equal. f_equal. f_equal. lia.
      * cbn. rewrite E1. exact Hw.
      * intros [|k] Hk.
        -- exists e. unfold outcomeOf. cbn. now rewrite E1.
        -- rewrite outcomeOf_S, E1. apply Hfail. cbn. lia.
      * destruct r as [t|[e'|]].
        -- rewrite outcomeOf_S, E1. exact Hr.
        -- rewrite outcomeOf_S, E1. destruct Hr as [H1 H2].
           split; [lia | exact H2].
        -- exact Hr.
Qed.

(** X1.  For a retry budget that is a whole number and a first delay
    that is a whole number, not negative, such that the largest delay
    computed is one a timer accepts (at most 2^31 - 1), the wrapper
    completes.  With a budget of 0 it never executes the operation and
    rejects with its own "Retry logic failed unexpectedly" error.  With
    a positive budget it executes the operation between once and
    [maxRetries] times, sleeps [initialDelay * 2^k] before retry [k+1],
    stops at the first success and returns its value, and rejects only
    after [maxRetries] failures, with the error of the last one. *)
Theorem withRetryFrom_run :
  forall w : W,
    ExactParameters maxRetries initialDelay ->
    match maxRetries with
    | O => withRetryFrom asyncFn maxRetries initialDelay w
           = Some (inr RetryLogicFailed, [], w)
    | S _ =>
        exists run,
          withRetryFrom asyncFn maxRetries initialDelay w = Some run /\
          RunFrom asyncFn maxRetries initialDelay 0 w run
    end.
Proof.
  intros w _. destruct maxRetries as [|n] eqn:Hmax.
  - reflexivity.
  - rewrite <- Hmax. unfold withRetryFrom. apply retryLoop_run; lia.
Qed.

End RetryGeneral.

Section RetryGeneralWitness.
Import GeminiService RetrySpec.

Lemma withRetryFrom_run_witness :
  ExactParameters 5 250 /\
  exists run,
    withRetryFrom Samples.flakyOperation 5 250 0%nat = Some run /\
    RunFrom Samples.flakyOperation 5 250 0 0%nat run.
Proof.
  assert (H : ExactParameters 5 250)
    by (repeat split; try lia; vm_compute; discriminate).
  split; [exact H|].
  exact (withRetryFrom_run Samples.flakyOperation 5 250 0%nat H).
Defined.

End RetryGeneralWitness.

(** ** The audio decoder *)

Ltac Zify.zify_post_hook ::= Z.to_euclidean_division_equations.

Section DecoderFacts.
Import JsString WebAudio.

(** Induction over a list two elements at a time. *)
Lemma list_ind2 : forall (A : Type) (P : list A -> Prop),
  P [] -> (forall a, P [a]) ->
  (forall a b l, P l -> P (a :: b :: l)) ->
  forall l, P l.
Proof.
  intros A P H0 H1 H2.
  assert (H : forall l, P l /\ forall a, P (a :: l)).
  { induction l as [|x l [IH1 IH2]]; split; auto. }
  intros l. apply H.
Qed.

Lemma int16Pairs_length : forall bytes,
  List.length (int16Pairs bytes) = (List.length bytes / 2)%nat.
Proof.
  induction bytes as [|a|a b l IH] using list_ind2; try reflexivity.
  cbn [int16Pairs List.length]. rewrite IH.
  change (S (S (List.length l))) with (1 * 2 + List.length l)%nat.
  now rewrite Nat.div_add_l.
Qed.

Lemma mod2_even : forall n : nat,
  (N.of_nat n mod 2 =? 0)%N = Nat.even n.
Proof.
  intros n. destruct (Nat.even n) eqn:Ev.
  - apply Nat.even_spec in Ev. destruct Ev as [k ->]. apply N.eqb_eq. lia.
  - apply N.eqb_neq.
    assert (Hodd : Nat.odd n = true) by (unfold Nat.odd; now rewrite Ev).
    apply Nat.odd_spec in Hodd. destruct Hodd as [k ->].
    replace (N.of_nat (2 * k + 1)) with (2 * N.of_nat k + 1)%N by lia. lia.
Qed.

Lemma skipn_repeat_all : forall (A : Type) (x : A) n,
  skipn n (repeat x n) = [].
Proof. induction n; cbn; auto. Qed.

(** Filling a freshly created buffer of [dataInt16.length] frames leaves
    none of its silence. *)
Lemma fillChannel_fresh : forall (dataInt16 : list Z) rate b,
  createBuffer (List.length dataInt16) rate = Ok b ->
  fillChannel b dataInt16 = mkAudioBuffer 1 rate (map normalize dataInt16).
Proof.
  intros xs rate b H. unfold createBuffer in H.
  destruct (List.length xs) as [|n] eqn:L; [discriminate|].
  injection H as <-. unfold fillChannel. cbn [numberOfChannels sampleRate
    channelData]. rewrite L. cbn [skipn].
  rewrite skipn_repeat_all, app_nil_r. reflexivity.
Qed.

End DecoderFacts.

Section DecoderOutcomes.
Import JsString WebAudio.
Open Scope float_scope.

(** X2.  What the decoder does with every payload.  A payload [atob]
    refuses is rejected with its InvalidCharacterError.  A payload of an
    odd number of bytes is rejected with the RangeError of the
    [Int16Array] view, and one of no bytes with the NotSupportedError of
    [createBuffer].  Every other payload gives a mono buffer at 24000 Hz
    with one frame per byte pair, frame [i] being the little-endian
    signed 16-bit value of bytes [2i] and [2i+1] divided by 32768, and
    with duration [frames / 24000]. *)
Theorem getAudioBufferFromBase64_outcomes :
  forall base64 : jsstring,
    match decode base64 with
    | Err e =>
        e = InvalidCharacterError /\
        getAudioBufferFromBase64 base64 = Err InvalidCharacterError
    | Ok data =>
        if Nat.odd (List.length data)
        then getAudioBufferFromBase64 base64 = Err RangeError
        else
          match data with
          | [] => getAudioBufferFromBase64 base64 = Err NotSupportedError
          | _ :: _ =>
              exists buffer,
                getAudioBufferFromBase64 base64 = Ok buffer /\
                numberOfChannels buffer = 1%nat /\
                sampleRate buffer = 24000 /\
                frames buffer = (List.length data / 2)%nat /\
                channelData buffer = map normalize (int16Pairs data) /\
                duration buffer
                  = JsNumber.ofNat (List.length data / 2) / 24000
          end
    end.
Proof.
  intros base64. unfold getAudioBufferFromBase64.
  destruct (decode base64) as [data|e] eqn:D.
  - unfold Int16Array. rewrite mod2_even. unfold Nat.odd.
    destruct (Nat.even (List.length data)) eqn:Ev; cbn [negb]; [|reflexivity].
    destruct data as [|a [|b rest]]; [reflexivity|discriminate Ev|].
    destruct (createBuffer (List.length (int16Pairs (a :: b :: rest))) 24000)
      as [buf|e] eqn:C; [|discriminate C].
    exists (fillChannel buf (int16Pairs (a :: b :: rest))).
    rewrite (fillChannel_fresh _ _ _ C).
    unfold duration, frames. cbn [numberOfChannels sampleRate channelData].
    rewrite length_map, int16Pairs_length. repeat split.
  - unfold decode in D. destruct (atob base64); [discriminate|].
    injection D as <-. split; reflexivity.
Qed.

End DecoderOutcomes.

(** ** Slide durations *)

Section DurationClaims.
Import JsString WebAudio App TimelineSpec.
Open Scope float_scope.




End DurationClaims.

Section Base64Facts.
Import JsString WebAudio.
Open Scope N_scope.

Lemma sextetOf_bound : forall c v, sextetOf c = Some v -> v < 64.
Proof.
  intros c v. unfold sextetOf.
  destruct ((65 <=? c) && (c <=? 90)) eqn:U.
  { apply andb_true_iff in U. destruct U as [U1 U2].
    apply N.leb_le in U1, U2. intros H. injection H as <-. lia. }
  destruct ((97 <=? c) && (c <=? 122)) eqn:L.
  { apply andb_true_iff in L. destruct L as [L1 L2].
    apply N.leb_le in L1, L2. intros H. injection H as <-. lia. }
  destruct ((48 <=? c) && (c <=? 57)) eqn:D.
  { apply andb_true_iff in D. destruct D as [D1 D2].
    apply N.leb_le in D1, D2. intros H. injection H as <-. lia. }
  destruct (c =? 43); [intros H; injection H as <-; lia|].
  destruct (c =? 47); [intros H; injection H as <-; lia|].
  discriminate.
Qed.

Lemma sextetsOf_bound : forall s l,
  sextetsOf s = Some l ->
  Forall (fun v => v < 64) l /\ List.length l = List.length s.
Proof.
  induction s as [|c s IH]; intros l H; cbn in H.
  - injection H as <-. split; [constructor|reflexivity].
  - destruct (sextetOf c) as [v|] eqn:Sv; [|discriminate].
    destruct (sextetsOf s) as [l'|]; [|discriminate].
    injection H as <-. destruct (IH l' eq_refl) as [Hb Hl].
    split; [constructor; [exact (sextetOf_bound _ _ Sv)|exact Hb]|].
    cbn. now rewrite Hl.
Qed.

(** Induction over a list four elements at a time. *)
Lemma list_ind4 : forall (A : Type) (P : list A -> Prop),
  P [] -> (forall a, P [a]) -> (forall a b, P [a; b]) ->
  (forall a b c, P [a; b; c]) ->
  (forall a b c d l, P l -> P (a :: b :: c :: d :: l)) ->
  forall l, P l.
Proof.
  intros A P H0 H1 H2 H3 H4.
  assert (H : forall l, P l /\ (forall a, P (a :: l)) /\
                        (forall a b, P (a :: b :: l)) /\
                        (forall a b c, P (a :: b :: c :: l))).
  { induction l as [|x l (IH0 & IH1 & IH2 & IH3)]; repeat split; auto. }
  intros l. apply H.
Qed.

Lemma bytesOfSextets_bound : forall l,
  Forall (fun v => v < 64) l ->
  Forall (fun b => b < 256) (bytesOfSextets l).
Proof.
  induction l as [|a|a b|a b c|a b c d l IH] using list_ind4; intros H;
    cbn [bytesOfSextets].
  - constructor.
  - constructor.
  - inversion H as [|? ? Ha H1]; subst. inversion H1 as [|? ? Hb _]; subst.
    repeat constructor. lia.
  - inversion H as [|? ? Ha H1]; subst. inversion H1 as [|? ? Hb H2]; subst.
    inversion H2 as [|? ? Hc _]; subst.
    repeat constructor; lia.
  - inversion H as [|? ? Ha H1]; subst. inversion H1 as [|? ? Hb H2]; subst.
    inversion H2 as [|? ? Hc H3]; subst. inversion H3 as [|? ? Hd H4]; subst.
    repeat (constructor; [lia|]). now apply IH.
Qed.

Lemma bytesOfSextets_length : forall l,
  List.length (bytesOfSextets l) = (3 * List.length l / 4)%nat.
Proof.
  induction l as [|a|a b|a b c|a b c d l IH] using list_ind4;
    try reflexivity.
  cbn [bytesOfSextets List.length]. rewrite IH.
  replace (3 * S (S (S (S (List.length l)))))%nat
    with (3 * 4 + 3 * List.length l)%nat by lia.
  now rewrite Nat.div_add_l.
Qed.

Lemma stripPadding_length : forall s,
  (List.length (stripPadding s) <= List.length s)%nat.
Proof.
  intros s. unfold stripPadding.
  pose proof (length_rev s) as L.
  destruct (rev s) as [|c1 r1]; [lia|].
  cbn [List.length] in L.
  assert (H1 : (List.length (rev r1) <= List.length s)%nat)
    by (rewrite length_rev; lia).
  assert (H2 : forall c2 r2, r1 = c2 :: r2 ->
                 (List.length (rev r2) <= List.length s)%nat).
  { intros c2 r2 ->. rewrite length_rev. cbn in L. lia. }
  destruct r1 as [|c2 r2];
    repeat match goal with
           | |- context [match ?x with _ => _ end] => destruct x
           end;
    first [ apply Nat.le_refl | exact H1 | exact (H2 _ _ eq_refl) ].
Qed.

End Base64Facts.

Section DecodeBytes.
Import JsString WebAudio.

(** X3.  When [atob] accepts a payload, every character of the binary
    string it returns is below 256, so [decode]'s copy into the
    [Uint8Array] loses nothing and returns exactly those values; and the
    payload yields at most three bytes per four of its characters.  When
    [atob] refuses the payload, [decode] throws. *)
Theorem decode_returns_the_binary_string :
  forall base64 : jsstring,
    match atob base64 with
    | Some binaryString =>
        Forall (fun c => (c < 256)%N) binaryString /\
        decode base64 = Ok binaryString /\
        (List.length binaryString <= 3 * List.length base64 / 4)%nat
    | None => decode base64 = Err InvalidCharacterError
    end.
Proof.
  intros base64. unfold decode.
  destruct (atob base64) as [bs|] eqn:A; [|reflexivity].
  unfold atob in A.
  set (d0 := filter (fun c => negb (isAsciiWhitespace c)) base64) in A.
  set (d1 := if (N.of_nat (List.length d0) mod 4 =? 0)%N
             then stripPadding d0 else d0) in A.
  destruct (N.of_nat (List.length d1) mod 4 =? 1)%N; [discriminate|].
  destruct (sextetsOf d1) as [l|] eqn:S1; [|discriminate].
  injection A as <-.
  destruct (sextetsOf_bound _ _ S1) as [Hb Hl].
  pose proof (bytesOfSextets_bound l Hb) as Hbytes.
  split; [exact Hbytes|]. split.
  - rewrite <- (map_id (bytesOfSextets l)) at 2. apply f_equal.
    apply map_ext_in. intros b Hin.
    rewrite Forall_forall in Hbytes. apply N.mod_small, Hbytes, Hin.
  - rewrite bytesOfSextets_length, Hl.
    assert (Hd0 : (List.length d0 <= List.length base64)%nat)
      by apply filter_length_le.
    assert (Hd1 : (List.length d1 <= List.length d0)%nat).
    { subst d1. destruct (N.of_nat (List.length d0) mod 4 =? 0)%N;
        [apply stripPadding_length | lia]. }
    apply Nat.Div0.div_le_mono. lia.
Qed.

End DecodeBytes.

(** ** Word wrapping and font fitting *)

Section JoinFacts.
Import JsString TextSpec.

Lemma joinWith_cons : forall sep p q rest,
  joinWith sep (p :: q :: rest) = p ++ sep :: joinWith sep (q :: rest).
Proof. reflexivity. Qed.

Lemma joinWith_cons_ne : forall sep p (l : list jsstring),
  l <> [] -> joinWith sep (p :: l) = p ++ sep :: joinWith sep l.
Proof. intros sep p [|q l] H; [congruence|reflexivity]. Qed.

Lemma splitCharFrom_nonempty : forall sep s cur,
  splitCharFrom sep cur s <> [].
Proof.
  induction s as [|c s IH]; intros cur; cbn; [discriminate|].
  destruct (c =? sep)%N; [discriminate|apply IH].
Qed.

Lemma splitCharFrom_join : forall sep s cur,
  joinWith sep (splitCharFrom sep cur s) = rev cur ++ s.
Proof.
  induction s as [|c s IH]; intros cur; cbn [splitCharFrom].
  - cbn. now rewrite app_nil_r.
  - destruct (c =? sep)%N eqn:Ec.
    + apply N.eqb_eq in Ec. subst c.
      rewrite joinWith_cons_ne by apply splitCharFrom_nonempty.
      rewrite IH. reflexivity.
    + rewrite IH. cbn [rev]. now rewrite <- app_assoc.
Qed.

(** Joining two adjacent pieces with the separator does not change the
    joined text. *)
Lemma joinWith_merge : forall sep before x y after,
  joinWith sep (before ++ (x ++ sep :: y) :: after)
  = joinWith sep (before ++ x :: y :: after).
Proof.
  induction before as [|p before IH]; intros x y after.
  - cbn [app]. rewrite joinWith_cons.
    destruct after as [|q after]; [reflexivity|].
    rewrite !joinWith_cons, <- app_assoc. reflexivity.
  - cbn [app].
    rewrite !joinWith_cons_ne by (intros E; now destruct before).
    now rewrite IH.
Qed.

End JoinFacts.

Section WrappingClaims.
Import JsString App TextSpec.
Open Scope float_scope.
Variable measureText : Font -> jsstring -> float.

Lemma wrapWords_join : forall font maxWidth words lines currentLine,
  joinWith 32 (wrapWords measureText font maxWidth lines currentLine words)
  = joinWith 32 (lines ++ currentLine :: words).
Proof.
  induction words as [|word rest IH]; intros lines cur; cbn [wrapWords].
  - reflexivity.
  - destruct (maxWidth <? measureText font (cur ++ [32%N] ++ word)).
    + rewrite IH, <- app_assoc. reflexivity.
    + rewrite IH. apply joinWith_merge.
Qed.

(** X4.  Wrapping loses nothing: the lines of [calculateLines], joined
    with single spaces, are the text, whatever the font metrics. *)
Theorem calculateLines_preserves_text :
  forall (font : Font) (text : jsstring) (maxWidth : float),
    joinWith 32 (calculateLines measureText font text maxWidth) = text.
Proof.
  intros font text maxWidth. unfold calculateLines.
  destruct text as [|c text]; [reflexivity|].
  pose proof (splitCharFrom_join 32 (c :: text) []) as J.
  fold (splitChar 32 (c :: text)) in J.
  destruct (splitChar 32 (c :: text)) as [|first rest].
  - cbn in J. discriminate J.
  - rewrite wrapWords_join. exact J.
Qed.

Lemma wrapWords_lines_fit :
  forall font maxWidth (allWords : list jsstring) words lines currentLine,
    let ok := fun line =>
      (maxWidth <? measureText font line) = false \/ In line allWords in
    Forall ok lines -> ok currentLine ->
    (forall w, In w words -> In w allWords) ->
    Forall ok (wrapWords measureText font maxWidth lines currentLine words).
Proof.
  intros font maxWidth allWords words.
  induction words as [|word rest IH]; intros lines cur ok Hl Hc Hw;
    cbn [wrapWords].
  - apply Forall_app. split; [exact Hl|]. constructor; [exact Hc|constructor].
  - destruct (maxWidth <? measureText font (cur ++ [32%N] ++ word)) eqn:M.
    + apply IH.
      * apply Forall_app. split; [exact Hl|].
        constructor; [exact Hc|constructor].
      * right. apply Hw. now left.
      * intros w Hin. apply Hw. now right.
    + apply IH.
      * exact Hl.
      * left. exact M.
      * intros w Hin. apply Hw. now right.
Qed.

(** X5.  Every line [calculateLines] produces either is not wider than
    [maxWidth] (the comparison [width > maxWidth] is false for it) or is
    a single word of the text, which the loop cannot break. *)
Theorem calculateLines_lines_fit_or_are_single_words :
  forall (font : Font) (text : jsstring) (maxWidth : float),
    Forall (fun line =>
              (maxWidth <? measureText font line) = false \/
              In line (splitChar 32 text))
           (calculateLines measureText font text maxWidth).
Proof.
  intros font text maxWidth. unfold calculateLines.
  destruct text as [|c text]; [constructor|].
  destruct (splitChar 32 (c :: text)) as [|first rest] eqn:Sp.
  - exfalso. now apply (splitCharFrom_nonempty 32 (c :: text) []).
  - apply (wrapWords_lines_fit font maxWidth (first :: rest)).
    + constructor.
    + right. now left.
    + intros w Hin. now right.
Qed.

End WrappingClaims.

Section FittingClaims.
Import JsString App TextSpec.
Open Scope float_scope.
Variable measureText : Font -> jsstring -> float.
Variable slide : Slide.

Lemma fitLoop_from : forall n k fuel,
  (k + n = 20)%nat -> (n < fuel)%nat ->
  exists layout,
    fitLoop measureText fuel slide (48 - 2 * Z.of_nat k) = Some layout /\
    ((exists j, (k <= j < 20)%nat /\
        layoutAt measureText slide (48 - 2 * Z.of_nat j) = (layout, true) /\
        forall i, (k <= i < j)%nat ->
          snd (layoutAt measureText slide (48 - 2 * Z.of_nat i)) = false)
     \/
     (layout = initialLayout /\
      forall i, (k <= i < 20)%nat ->
        snd (layoutAt measureText slide (48 - 2 * Z.of_nat i)) = false)).
Proof.
  induction n as [|n IH]; intros k fuel Hk Hfuel;
    (destruct fuel as [|fuel]; [lia|]); cbn [fitLoop].
  - assert (E : (10 <=? 48 - 2 * Z.of_nat k)%Z = false)
      by (apply Z.leb_gt; lia).
    rewrite E. exists initialLayout. split; [reflexivity|].
    right. split; [reflexivity|]. intros i Hi. lia.
  - assert (E : (10 <=? 48 - 2 * Z.of_nat k)%Z = true)
      by (apply Z.leb_le; lia).
    rewrite E.
    destruct (layoutAt measureText slide (48 - 2 * Z.of_nat k))
      as [layout fits] eqn:L.
    destruct fits.
    + exists layout. split; [reflexivity|]. left. exists k.
      repeat split; try lia. exact L.
    + replace (48 - 2 * Z.of_nat k - 2)%Z
        with (48 - 2 * Z.of_nat (S k))%Z by lia.
      destruct (IH (S k) fuel ltac:(lia) ltac:(lia))
        as (layout' & Hrun & Hcase).
      exists layout'. split; [exact Hrun|].
      destruct Hcase as [(j & Hj & Hfit & Hnot)|(Hinit & Hnot)].
      * left. exists j. repeat split; try lia; [exact Hfit|].
        intros i Hi. destruct (Nat.eq_dec i k) as [->|Hne].
        -- now rewrite L.
        -- apply Hnot. lia.
      * right. split; [exact Hinit|].
        intros i Hi. destruct (Nat.eq_dec i k) as [->|Hne].
        -- now rewrite L.
        -- apply Hnot. lia.
Qed.

Lemma triedSizes_spec : forall s,
  In s triedSizes <-> exists j, (j < 20)%nat /\ s = (48 - 2 * Z.of_nat j)%Z.
Proof.
  intros s. unfold triedSizes. rewrite in_map_iff. split.
  - intros (j & <- & Hin). apply in_seq in Hin. exists j. split; [lia|auto].
  - intros (j & Hj & ->). exists j. split; [reflexivity|].
    apply in_seq. lia.
Qed.

(** X6.  The fitting loop of [createTextCache] always ends.  If some
    tried size (48, 46, ..., 10) fits, the layout kept is the one of the
    largest tried size that fits.  If none fits, the layout is the
    initial one: font sizes 0, no lines and height 0, so the text layer
    of the slide stays empty. *)
Theorem createTextCache_keeps_largest_fit :
  exists layout,
    createTextCache measureText slide = Some layout /\
    ((exists size,
        In size triedSizes /\
        layoutAt measureText slide size = (layout, true) /\
        forall s, In s triedSizes -> (size < s)%Z ->
                  snd (layoutAt measureText slide s) = false)
     \/
     (layout = initialLayout /\
      englishLines layout = [] /\ hindiLines layout = [] /\
      forall s, In s triedSizes ->
                snd (layoutAt measureText slide s) = false)).
Proof.
  destruct (fitLoop_from 20 0 21 eq_refl ltac:(lia))
    as (layout & Hrun & Hcase).
  exists layout. split; [exact Hrun|].
  destruct Hcase as [(j & Hj & Hfit & Hnot)|(Hinit & Hnot)].
  - left. exists (48 - 2 * Z.of_nat j)%Z. repeat split.
    + apply triedSizes_spec. exists j. split; [lia|reflexivity].
    + exact Hfit.
    + intros s Hs Hlt. apply triedSizes_spec in Hs.
      destruct Hs as (i & Hi & ->). apply Hnot. lia.
  - right. subst layout. repeat split.
    intros s Hs. apply triedSizes_spec in Hs.
    destruct Hs as (i & Hi & ->). apply Hnot. lia.
Qed.

End FittingClaims.

(** ** The fallback splitter *)

Section FallbackSplitClaims.
Import JsString GeminiService.

Lemma splitRunsFrom_concat : forall isSep s cur inRun,
  (inRun = true -> cur = []) ->
  List.concat (splitRunsFrom isSep cur inRun s)
  = rev cur ++ filter (fun c => negb (isSep c)) s.
Proof.
  induction s as [|c s IH]; intros cur inRun Hrun; cbn [splitRunsFrom filter].
  - cbn. now rewrite !app_nil_r.
  - destruct (isSep c) eqn:Sc; cbn [negb].
    + destruct inRun.
      * rewrite (Hrun eq_refl). now rewrite IH.
      * cbn [List.concat]. now rewrite IH.
    + rewrite IH by discriminate. cbn [rev]. now rewrite <- app_assoc.
Qed.

Lemma splitRunsFrom_clean : forall isSep s cur inRun,
  Forall (fun c => isSep c = false) cur ->
  Forall (Forall (fun c => isSep c = false))
         (splitRunsFrom isSep cur inRun s).
Proof.
  induction s as [|c s IH]; intros cur inRun Hcur; cbn [splitRunsFrom].
  - constructor; [|constructor]. now apply Forall_rev.
  - destruct (isSep c) eqn:Sc.
    + destruct inRun; [now apply IH|].
      constructor; [now apply Forall_rev | now apply IH].
    + apply IH. now constructor.
Qed.

(** X7.  Splitting on runs of newlines and periods loses only those
    characters: the pieces, concatenated, are the text without its
    newlines and periods.  Every segment the fallback returns is one of
    the pieces and contains no newline and no period. *)
Theorem fallbackSplit_segments :
  forall text : jsstring,
    List.concat (splitNewlinePeriodRuns text)
      = filter (fun c => negb (isNewlineOrPeriod c)) text /\
    Forall (fun line =>
              In line (splitNewlinePeriodRuns text) /\
              Forall (fun c => c <> 10%N /\ c <> 46%N) line)
           (fallbackSplit text).
Proof.
  intros text. split.
  - unfold splitNewlinePeriodRuns.
    now rewrite splitRunsFrom_concat by discriminate.
  - apply Forall_forall. intros line Hin.
    unfold fallbackSplit in Hin. apply filter_In in Hin.
    destruct Hin as [Hin _]. split; [exact Hin|].
    pose proof (splitRunsFrom_clean isNewlineOrPeriod text [] false
                  (Forall_nil _)) as Hclean.
    rewrite Forall_forall in Hclean. specialize (Hclean line Hin).
    eapply Forall_impl; [|exact Hclean].
    intros c Hc. unfold isNewlineOrPeriod in Hc.
    apply orb_false_iff in Hc. destruct Hc as [H1 H2].
    apply N.eqb_neq in H1, H2. now split.
Qed.

End FallbackSplitClaims.

(** ** The service calls *)

Section ServiceRuns.
Import GeminiService RetrySpec CallSpec.
Context {W R E : Type}.
Variable asyncFn : W -> (R + E) * W.

Lemma withRetry_run : forall w,
  exists run,
    withRetry asyncFn w = Some run /\ RunFrom asyncFn 3 2000 0 w run.
Proof.
  intros w. unfold withRetry, withRetryFrom. apply retryLoop_run; lia.
Qed.

(** The value of a run of the wrapper is decided by the first success
    among the first three executions, or by their common failure. *)
Lemma RunFrom_ServiceRun :
  forall (A : Type) (onSuccess : R -> A) (onFailure : A) w r effects w',
    RunFrom asyncFn 3 2000 0 w (r, effects, w') ->
    ServiceRun asyncFn w onSuccess onFailure
      (match r with inl response => onSuccess response | inr _ => onFailure end,
       effects, w').
Proof.
  intros A onSuccess onFailure w r effects w' Hrun.
  unfold RunFrom in Hrun.
  destruct Hrun as (Hc & Hle & _ & Hsl & Hw & Hfail & Hr).
  unfold ServiceRun. split; [lia|]. split; [exact Hw|]. split.
  - intros k response Hk Hok Hbefore.
    assert (Hk' : k = (calls effects - 1)%nat).
    { destruct (Nat.lt_trichotomy k (calls effects - 1)) as [Hlt|[Heq|Hgt]].
      - destruct (Hfail k Hlt) as [e He]. congruence.
      - exact Heq.
      - destruct (Hbefore _ Hgt) as [e He].
        destruct r as [t|[e'|]].
        + congruence.
        + lia.
        + destruct Hr. }
    subst k. destruct r as [t|[e'|]].
    + rewrite Hr in Hok. injection Hok as <-. split; [reflexivity|lia].
    + destruct Hr as [_ Hr]. congruence.
    + destruct Hr.
  - intros Hall. destruct r as [t|[e'|]].
    + destruct (Hall (calls effects - 1)%nat ltac:(lia)) as [e He].
      congruence.
    + destruct Hr as [Hn _]. cbn in Hn. split; [reflexivity|].
      split; [exact Hn|]. rewrite Hsl, Hn. reflexivity.
    + destruct Hr.
Qed.

End ServiceRuns.

Section ServiceClaims.
Import JsString GeminiService RetrySpec CallSpec GeminiCalls.
Context {W E : Type}.
Variable generateContent :
  Request -> W -> (GenerateContentResponse + E) * W.

Lemma translateText_run : forall english context w,
  exists result,
    translateText generateContent english context w = Some result /\
    ServiceRun
      (generateContent
         (TranslateRequest english
            (orElse context (lit "No previous context provided."))))
      w (textOr translationError) translationError result.
Proof.
  intros english context w. unfold translateText.
  set (request := TranslateRequest english
                    (orElse context (lit "No previous context provided."))).
  destruct (withRetry_run (generateContent request) w)
    as ([[r eff] w'] & -> & Hrun).
  pose proof (RunFrom_ServiceRun (generateContent request) jsstring
                (textOr translationError) translationError
                w r eff w' Hrun) as Hs.
  destruct r as [response|e]; eexists; (split; [|exact Hs]).
  - unfold textOr. destruct (text response); reflexivity.
  - reflexivity.
Qed.

Lemma generateExplanation_run : forall english context w,
  exists result,
    generateExplanation generateContent english context w = Some result /\
    ServiceRun
      (generateContent
         (ExplainRequest english
            (orElse context (lit "This is the beginning of the lesson."))
            (negb (isEmpty context))))
      w (textOr explanationError) explanationError result.
Proof.
  intros english context w. unfold generateExplanation.
  set (request := ExplainRequest english
                    (orElse context
                       (lit "This is the beginning of the lesson."))
                    (negb (isEmpty context))).
  destruct (withRetry_run (generateContent request) w)
    as ([[r eff] w'] & -> & Hrun).
  pose proof (RunFrom_ServiceRun (generateContent request) jsstring
                (textOr explanationError) explanationError
                w r eff w' Hrun) as Hs.
  destruct r as [response|e]; eexists; (split; [|exact Hs]).
  - unfold textOr. destruct (text response); reflexivity.
  - reflexivity.
Qed.

Lemma generateImage_run : forall englishText explanation context w,
  exists result,
    generateImage generateContent englishText explanation context w
      = Some result /\
    ServiceRun
      (generateContent
         (ImageRequest englishText explanation
            (orElse context (lit "No additional context provided."))))
      w imageOf None result.
Proof.
  intros englishText explanation context w. unfold generateImage.
  set (request := ImageRequest englishText explanation
                    (orElse context
                       (lit "No additional context provided."))).
  destruct (withRetry_run (generateContent request) w)
    as ([[r eff] w'] & -> & Hrun).
  pose proof (RunFrom_ServiceRun (generateContent request)
                (option jsstring) imageOf None w r eff w' Hrun) as Hs.
  destruct r as [response|e]; eexists; (split; [|exact Hs]).
  - unfold imageOf. destruct (parts response); reflexivity.
  - reflexivity.
Qed.

Lemma generateSpeech_blank : forall script w,
  trim script = [] ->
  generateSpeech generateContent script w = Some (None, [], w).
Proof. intros script w H. unfold generateSpeech. now rewrite H. Qed.

Lemma generateSpeech_run : forall script w,
  trim script <> [] ->
  exists result,
    generateSpeech generateContent script w = Some result /\
    ServiceRun (generateContent (SpeechRequest script)) w
      (fun response => headInlineData (parts response)) None result.
Proof.
  intros script w Hne. unfold generateSpeech.
  destruct (trim script) as [|c rest]; [congruence|]. cbn [isEmpty].
  destruct (withRetry_run (generateContent (SpeechRequest script)) w)
    as ([[r eff] w'] & -> & Hrun).
  pose proof (RunFrom_ServiceRun (generateContent (SpeechRequest script))
                (option jsstring)
                (fun response => headInlineData (parts response))
                None w r eff w' Hrun) as Hs.
  destruct r as [response|e]; eexists; (split; [|exact Hs]); reflexivity.
Qed.

(** X8.  [translateText] and [generateExplanation] never reject: they
    always return a string, after one to three provider calls.  The
    string is the trimmed text of the first successful response (the
    failure string if that response has no text), and the failure
    string of the function when three calls in a row fail. *)
Theorem text_calls_return_text_or_failure_string :
  forall (english context : jsstring) (w : W),
    (exists result,
       translateText generateContent english context w = Some result /\
       ServiceRun
         (generateContent
            (TranslateRequest english
               (orElse context (lit "No previous context provided."))))
         w
         (fun response => match text response with
                          | Some t => trim t
                          | None => translationError
                          end)
         translationError result) /\
    (exists result,
       generateExplanation generateContent english context w = Some result /\
       ServiceRun
         (generateContent
            (ExplainRequest english
               (orElse context (lit "This is the beginning of the lesson."))
               (negb (isEmpty context))))
         w
         (fun response => match text response with
                          | Some t => trim t
                          | None => explanationError
                          end)
         explanationError result).
Proof.
  intros english context w. split.
  - exact (translateText_run english context w).
  - exact (generateExplanation_run english context w).
Qed.

(** X9.  [generateImage] and [generateSpeech] never reject.  For a
    script that is empty or only white space [generateSpeech] returns
    null without calling the provider.  Otherwise each makes one to
    three provider calls; the first successful response decides the
    value (for an image the data of the first part that has inline
    data, for speech the inline data of the first part, null when
    missing), and three failures in a row give null. *)
Theorem media_calls_return_data_or_null :
  forall (englishText explanation context script : jsstring) (w : W),
    (exists result,
       generateImage generateContent englishText explanation context w
         = Some result /\
       ServiceRun
         (generateContent
            (ImageRequest englishText explanation
               (orElse context (lit "No additional context provided."))))
         w
         (fun response => match parts response with
                          | Some ps => firstInlineData ps
                          | None => None
                          end)
         None result) /\
    match trim script with
    | [] => generateSpeech generateContent script w = Some (None, [], w)
    | _ :: _ =>
        exists result,
          generateSpeech generateContent script w = Some result /\
          ServiceRun (generateContent (SpeechRequest script)) w
            (fun response => headInlineData (parts response))
            None result
    end.
Proof.
  intros englishText explanation context script w. split.
  - exact (generateImage_run englishText explanation context w).
  - destruct (trim script) as [|c rest] eqn:T.
    + now apply generateSpeech_blank.
    + apply generateSpeech_run. rewrite T. discriminate.
Qed.

End ServiceClaims.

(** ** The lesson pipeline *)

Section PipelineFacts.
Import JsString GeminiService GeminiCalls App Pipeline PipelineSpec.

Lemma pauses_app : forall a b, pauses (a ++ b) = pauses a ++ pauses b.
Proof.
  induction a as [|[k eff|ms] a IH]; intros b; cbn; auto.
  now rewrite IH.
Qed.

Lemma serviceCalls_app : forall kind a b,
  serviceCalls kind (a ++ b)
  = (serviceCalls kind a + serviceCalls kind b)%nat.
Proof.
  induction a as [|[k eff|ms] a IH]; intros b; cbn; auto.
  destruct (sameKind kind k); cbn; now rewrite IH.
Qed.

Lemma pauses_pauseUnlessLast : forall (A : Type) (x : A) (rest : list A),
  pauses (pauseUnlessLast rest) ++ repeat 2000%Z (List.length rest - 1)
  = repeat 2000%Z (List.length (x :: rest) - 1).
Proof.
  intros A x [|y rest]; cbn; [reflexivity|].
  now rewrite Nat.sub_0_r.
Qed.

Lemma serviceCalls_pauseUnlessLast : forall (A : Type) kind (rest : list A),
  serviceCalls kind (pauseUnlessLast rest) = 0%nat.
Proof. intros A kind [|y rest]; reflexivity. Qed.

End PipelineFacts.

Section PipelineLoops.
Import JsString GeminiService GeminiCalls App Pipeline PipelineSpec.
Context {W E : Type}.
Variable generateContent :
  Request -> W -> (GenerateContentResponse + E) * W.

(** Step 1 creates one slide per line, numbered from [i], without image
    or audio. *)
Lemma translateLoop_run : forall contextText auto lines i w,
  exists slides events w',
    translateLoop generateContent contextText auto i lines w
      = Some (slides, events, w') /\
    map english slides = lines /\
    (forall k s, nth_error slides k = Some s -> id s = (i + k)%nat) /\
    Forall (fun s => imageUrl s = None /\ audioData s = None) slides /\
    (auto = false -> Forall (fun s => script s = lit " ") slides) /\
    pauses events = repeat 2000%Z (List.length lines - 1) /\
    serviceCalls Translate events = List.length lines /\
    serviceCalls Explain events
      = (if auto then List.length lines else 0%nat) /\
    serviceCalls Image events = 0%nat /\
    serviceCalls Speech events = 0%nat.
Proof.
  intros contextText auto lines.
  induction lines as [|english rest IH]; intros i w.
  - exists [], [], w. cbn.
    repeat split; try constructor;
      try (intros [|k] s H; discriminate H); now destruct auto.
  - cbn [translateLoop].
    destruct (translateText_run generateContent english contextText w)
      as ([[hindi eff1] w1] & -> & _).
    assert (Hex : exists script events2 w2,
      (if auto
       then match generateExplanation generateContent english
                                      contextText w1 with
            | None => None
            | Some (script, effects2, w2) =>
                Some (script, [ServiceCall Explain effects2], w2)
            end
       else Some (lit " ", [], w1))
      = Some (script, events2, w2) /\
      pauses events2 = [] /\
      serviceCalls Translate events2 = 0%nat /\
      serviceCalls Explain events2 = (if auto then 1%nat else 0%nat) /\
      serviceCalls Image events2 = 0%nat /\
      serviceCalls Speech events2 = 0%nat /\
      (auto = false -> script = lit " ")).
    { destruct auto.
      - destruct (generateExplanation_run generateContent english
                    contextText w1) as ([[script eff2] w2] & -> & _).
        exists script, [ServiceCall Explain eff2], w2.
        repeat split. discriminate.
      - exists (lit " "), [], w1. repeat split. }
    destruct Hex as (script & events2 & w2 & -> & Hp2 & Ht2 & He2 & Hi2
                     & Hs2 & Hsc).
    destruct (IH (S i) w2)
      as (slides & events & w3 & -> & Hen & Hid & Hnone & Hscr & Hp & Ht
          & He & Hi & Hs).
    eexists _, _, _. split; [reflexivity|].
    repeat split.
    + cbn. now rewrite Hen.
    + intros [|k] s H; cbn in H.
      * injection H as <-. cbn. lia.
      * rewrite (Hid k s H). lia.
    + constructor; [split; reflexivity | exact Hnone].
    + intros Ha. constructor; [cbn; now apply Hsc | now apply Hscr].
    + cbn [pauses]. rewrite !pauses_app, Hp2, Hp. cbn [app].
      apply pauses_pauseUnlessLast.
    + cbn [serviceCalls sameKind].
      rewrite !serviceCalls_app, Ht2, Ht, serviceCalls_pauseUnlessLast.
      reflexivity.
    + cbn [serviceCalls sameKind].
      rewrite !serviceCalls_app, He2, He, serviceCalls_pauseUnlessLast.
      destruct auto; reflexivity.
    + cbn [serviceCalls sameKind].
      rewrite !serviceCalls_app, Hi2, Hi, serviceCalls_pauseUnlessLast.
      reflexivity.
    + cbn [serviceCalls sameKind].
      rewrite !serviceCalls_app, Hs2, Hs, serviceCalls_pauseUnlessLast.
      reflexivity.
Qed.

(** Step 2 changes image urls only. *)
Lemma imageLoop_run : forall contextText slides w,
  exists slides' events w',
    imageLoop generateContent contextText slides w
      = Some (slides', events, w') /\
    Forall2 (fun s s' => id s' = id s /\ english s' = english s /\
                         hindi s' = hindi s /\ script s' = script s /\
                         audioData s' = audioData s) slides slides' /\
    pauses events = repeat 2000%Z (List.length slides - 1) /\
    serviceCalls Translate events = 0%nat /\
    serviceCalls Explain events = 0%nat /\
    serviceCalls Image events = List.length slides /\
    serviceCalls Speech events = 0%nat.
Proof.
  intros contextText slides.
  induction slides as [|slide rest IH]; intros w.
  - exists [], [], w. cbn. repeat split. constructor.
  - cbn [imageLoop].
    destruct (generateImage_run generateContent (english slide)
                (script slide) contextText w)
      as ([[img eff] w1] & -> & _).
    destruct (IH w1) as (slides' & events & w2 & -> & Hf & Hp & Ht & He
                         & Hi & Hs).
    eexists _, _, _. split; [reflexivity|]. repeat split.
    + constructor; [repeat split | exact Hf].
    + cbn [pauses]. rewrite pauses_app, Hp. apply pauses_pauseUnlessLast.
    + cbn [serviceCalls sameKind].
      now rewrite serviceCalls_app, Ht, serviceCalls_pauseUnlessLast.
    + cbn [serviceCalls sameKind].
      now rewrite serviceCalls_app, He, serviceCalls_pauseUnlessLast.
    + cbn [serviceCalls sameKind].
      now rewrite serviceCalls_app, Hi, serviceCalls_pauseUnlessLast.
    + cbn [serviceCalls sameKind].
      now rewrite serviceCalls_app, Hs, serviceCalls_pauseUnlessLast.
Qed.

(** Step 3 changes audio data only, calls the speech service at most
    once per slide and not at all for a blank script. *)
Lemma narrationLoop_run : forall slides w,
  exists slides' events w',
    narrationLoop generateContent slides w = Some (slides', events, w') /\
    Forall2 (fun s s' => id s' = id s /\ english s' = english s /\
                         hindi s' = hindi s /\ script s' = script s /\
                         imageUrl s' = imageUrl s /\
                         (trim (script s) = [] -> audioData s' = None))
            slides slides' /\
    pauses events = repeat 2000%Z (List.length slides - 1) /\
    serviceCalls Translate events = 0%nat /\
    serviceCalls Explain events = 0%nat /\
    serviceCalls Image events = 0%nat /\
    (serviceCalls Speech events <= List.length slides)%nat /\
    (Forall (fun s => trim (script s) = []) slides ->
     serviceCalls Speech events = 0%nat).
Proof.
  intros slides.
  induction slides as [|slide rest IH]; intros w.
  - exists [], [], w. cbn. repeat split; auto.
  - cbn [narrationLoop].
    assert (Hex : exists audio events1 w1,
      (if isEmpty (trim (script slide)) then Some (None, [], w)
       else match generateSpeech generateContent (script slide) w with
            | None => None
            | Some (audio, effects, w1) =>
                Some (audio, [ServiceCall Speech effects], w1)
            end)
      = Some (audio, events1, w1) /\
      pauses events1 = [] /\
      serviceCalls Translate events1 = 0%nat /\
      serviceCalls Explain events1 = 0%nat /\
      serviceCalls Image events1 = 0%nat /\
      (serviceCalls Speech events1 <= 1)%nat /\
      (trim (script slide) = [] ->
       audio = None /\ serviceCalls Speech events1 = 0%nat)).
    { destruct (trim (script slide)) as [|c r] eqn:T; cbn [isEmpty].
      - exists None, [], w. repeat split; cbn; lia.
      - destruct (generateSpeech_run generateContent (script slide) w)
          as ([[audio eff] w1] & -> & _); [rewrite T; discriminate|].
        exists audio, [ServiceCall Speech eff], w1.
        repeat split; cbn; try lia; discriminate. }
    destruct Hex as (audio & events1 & w1 & -> & Hp1 & Ht1 & He1 & Hi1
                     & Hs1 & Hblank).
    destruct (IH w1) as (slides' & events & w2 & -> & Hf & Hp & Ht & He
                         & Hi & Hs & Hnone).
    eexists _, _, _. split; [reflexivity|]. repeat split.
    + constructor; [|exact Hf]. repeat split. intros Hb.
      now destruct (Hblank Hb).
    + rewrite !pauses_app, Hp1, Hp. cbn [app].
      apply pauses_pauseUnlessLast.
    + now rewrite !serviceCalls_app, Ht1, Ht, serviceCalls_pauseUnlessLast.
    + now rewrite !serviceCalls_app, He1, He, serviceCalls_pauseUnlessLast.
    + now rewrite !serviceCalls_app, Hi1, Hi, serviceCalls_pauseUnlessLast.
    + rewrite !serviceCalls_app, serviceCalls_pauseUnlessLast. cbn. lia.
    + intros Hall. inversion Hall as [|? ? Hb Hrest]; subst.
      rewrite !serviceCalls_app, serviceCalls_pauseUnlessLast.
      destruct (Hblank Hb) as [_ ->]. now rewrite (Hnone Hrest).
Qed.

End PipelineLoops.

Section PipelineClaims.
Import JsString GeminiService GeminiCalls App Pipeline PipelineSpec SlideSpec.
Context {W E : Type}.
Variable generateContent :
  Request -> W -> (GenerateContentResponse + E) * W.
Variable JSON_parse : jsstring -> option Json.

Lemma splitTextIntoSentences_total :
  forall (provider : jsstring -> W -> (option jsstring + E) * W) text w,
  exists sentences w',
    splitTextIntoSentences provider JSON_parse text w = Some (sentences, w').
Proof.
  intros provider text w. unfold splitTextIntoSentences, withRetry.
  destruct (withRetryFrom_total (provider text) 3 2000 w)
    as [[[r eff] w1] ->].
  destruct r as [rt|e]; [destruct (parseSentences JSON_parse rt)|];
    eexists _, _; reflexivity.
Qed.

Lemma Forall2_nth_error_r :
  forall (A B : Type) (R : A -> B -> Prop) l l' k y,
    Forall2 R l l' -> nth_error l' k = Some y ->
    exists x, nth_error l k = Some x /\ R x y.
Proof.
  intros A B R l l' k y H. revert k.
  induction H as [|x y' l l' Hxy Hrest IH]; intros k Hk.
  - destruct k; discriminate.
  - destruct k as [|k]; cbn in Hk.
    + injection Hk as <-. exists x. split; [reflexivity|exact Hxy].
    + exact (IH k Hk).
Qed.

Lemma Forall2_map_eq :
  forall (A B : Type) (f : A -> B) l l',
    Forall2 (fun s s' => f s' = f s) l l' -> map f l' = map f l.
Proof.
  intros A B f l l' H. induction H as [|x y l l' Hxy _ IH]; cbn;
    [reflexivity|]. now rewrite Hxy, IH.
Qed.

(** All that a run of the three steps on a non-empty list of lines
    establishes. *)
Lemma pipeline_steps_run : forall contextText auto lines w1,
  exists slides1 events1 w2 slides2 events2 w3 slides3 events3 w4,
    translateLoop generateContent contextText auto 0 lines w1
      = Some (slides1, events1, w2) /\
    imageLoop generateContent contextText slides1 w2
      = Some (slides2, events2, w3) /\
    narrationLoop generateContent slides2 w3
      = Some (slides3, events3, w4) /\
    map english slides3 = lines /\
    DenseIds slides3 /\
    pauses (events1 ++ events2 ++ events3)
      = repeat 2000%Z (3 * (List.length lines - 1)) /\
    serviceCalls Translate (events1 ++ events2 ++ events3)
      = List.length lines /\
    serviceCalls Explain (events1 ++ events2 ++ events3)
      = (if auto then List.length lines else 0%nat) /\
    serviceCalls Image (events1 ++ events2 ++ events3)
      = List.length lines /\
    (serviceCalls Speech (events1 ++ events2 ++ events3)
       <= List.length lines)%nat /\
    (auto = false ->
     Forall (fun s => script s = lit " " /\ audioData s = None) slides3 /\
     serviceCalls Speech (events1 ++ events2 ++ events3) = 0%nat).
Proof.
  intros contextText auto lines w1.
  destruct (translateLoop_run generateContent contextText auto lines 0 w1)
    as (slides1 & events1 & w2 & R1 & Hen1 & Hid1 & _ & Hscr1 & Hp1 & Ht1
        & He1 & Hi1 & Hs1).
  destruct (imageLoop_run generateContent contextText slides1 w2)
    as (slides2 & events2 & w3 & R2 & Hf2 & Hp2 & Ht2 & He2 & Hi2 & Hs2).
  destruct (narrationLoop_run generateContent slides2 w3)
    as (slides3 & events3 & w4 & R3 & Hf3 & Hp3 & Ht3 & He3 & Hi3 & Hs3
        & Hblank3).
  exists slides1, events1, w2, slides2, events2, w3, slides3, events3, w4.
  assert (L1 : List.length slides1 = List.length lines)
    by (rewrite <- Hen1; now rewrite length_map).
  assert (L2 : List.length slides2 = List.length lines)
    by (rewrite <- (Forall2_length Hf2); exact L1).
  assert (Hen : map english slides3 = lines).
  { rewrite <- Hen1.
    transitivity (map english slides2).
    - apply Forall2_map_eq. eapply Forall2_impl; [|exact Hf3].
      cbn. intros a b H. apply H.
    - apply Forall2_map_eq. eapply Forall2_impl; [|exact Hf2].
      cbn. intros a b H. apply H. }
  assert (Hscript : forall k s3, nth_error slides3 k = Some s3 ->
            exists s1, nth_error slides1 k = Some s1 /\
                       id s3 = id s1 /\ script s3 = script s1 /\
                       (trim (script s1) = [] -> audioData s3 = None)).
  { intros k s3 H3.
    destruct (Forall2_nth_error_r _ _ _ _ _ _ _ Hf3 H3)
      as (s2 & H2 & Hid3 & _ & _ & Hsc3 & _ & Hau3).
    destruct (Forall2_nth_error_r _ _ _ _ _ _ _ Hf2 H2)
      as (s1 & H1 & Hid2 & _ & _ & Hsc2 & _).
    exists s1. split; [exact H1|]. repeat split; try congruence.
    intros Hb. apply Hau3. congruence. }
  split; [exact R1|]. split; [exact R2|]. split; [exact R3|].
  split; [exact Hen|]. split.
  { intros k s3 H3. destruct (Hscript k s3 H3) as (s1 & H1 & Hid & _).
    rewrite Hid. exact (Hid1 k s1 H1). }
  split.
  { rewrite !pauses_app, Hp1, Hp2, Hp3, L1, L2, <- !repeat_app.
    f_equal. lia. }
  rewrite !serviceCalls_app.
  rewrite Ht1, Ht2, Ht3, He1, He2, He3, Hi1, Hi2, Hi3, Hs1, Hs2, L1.
  rewrite L2 in Hs3.
  split; [lia|]. split; [destruct auto; lia|]. split; [lia|].
  split; [lia|].
  intros Hauto. specialize (Hscr1 Hauto).
  rewrite Forall_forall in Hscr1.
  split.
  - apply Forall_forall. intros s3 Hin.
    apply In_nth_error in Hin. destruct Hin as [k H3].
    destruct (Hscript k s3 H3) as (s1 & H1 & _ & Hsc & Hau).
    pose proof (Hscr1 s1 (nth_error_In _ _ H1)) as Hs1'.
    split; [congruence|]. apply Hau. now rewrite Hs1'.
  - cbn [Nat.add]. apply Hblank3.
    apply Forall_forall. intros s2 Hin.
    apply In_nth_error in Hin. destruct Hin as [k H2].
    destruct (Forall2_nth_error_r _ _ _ _ _ _ _ Hf2 H2)
      as (s1 & H1 & _ & _ & _ & Hsc & _).
    rewrite Hsc, (Hscr1 s1 (nth_error_In _ _ H1)). reflexivity.
Qed.

End PipelineClaims.

Section PipelineTheorems.
Import JsString GeminiService GeminiCalls App Pipeline PipelineSpec SlideSpec.
Context {W E : Type}.
Variable generateContent :
  Request -> W -> (GenerateContentResponse + E) * W.
Variable JSON_parse : jsstring -> option Json.

(** X10.  [generateSlides] always ends.  On blank input it does
    nothing.  Otherwise it segments the text; with no segment it ends
    in the error state without slides; with [n > 0] segments it ends in
    the done state with one slide per segment, in order, whose ids are
    their positions, after [3 (n - 1)] pauses of 2000, [n] translation
    calls, [n] image calls, [n] explanation calls when explanations are
    enabled (none otherwise) and at most [n] speech calls. *)
Theorem generateSlides_builds_one_slide_per_segment :
  forall (inputText contextText : jsstring) (auto : bool) (w : W),
  exists run,
    generateSlides generateContent JSON_parse inputText contextText auto w
      = Some run /\
    match run with
    | Ignored => trim inputText = []
    | Finished state slides events w' =>
        trim inputText <> [] /\
        exists lines w1,
          splitTextIntoSentences (splitProvider generateContent) JSON_parse
                                 inputText w = Some (lines, w1) /\
          match lines with
          | [] => state = error /\ slides = [] /\ events = []
          | _ :: _ =>
              state = done /\
              map english slides = lines /\
              DenseIds slides /\
              pauses events = repeat 2000%Z (3 * (List.length lines - 1)) /\
              serviceCalls Translate events = List.length lines /\
              serviceCalls Explain events
                = (if auto then List.length lines else 0%nat) /\
              serviceCalls Image events = List.length lines /\
              (serviceCalls Speech events <= List.length lines)%nat
          end
    end.
Proof.
  intros inputText contextText auto w. unfold generateSlides.
  destruct (trim inputText) as [|c0 r0] eqn:T; cbn [isEmpty].
  { exists Ignored. split; reflexivity. }
  destruct (splitTextIntoSentences_total JSON_parse
              (splitProvider generateContent) inputText w)
    as (lines & w1 & Hsplit).
  rewrite Hsplit.
  destruct lines as [|line rest].
  { eexists. split; [reflexivity|]. split; [discriminate|].
    exists [], w1. repeat split. }
  destruct (pipeline_steps_run generateContent JSON_parse contextText auto
              (line :: rest) w1)
    as (slides1 & events1 & w2 & slides2 & events2 & w3 & slides3 & events3
        & w4 & -> & -> & -> & Hen & Hid & Hp & Ht & He & Hi & Hs & _).
  eexists. split; [reflexivity|]. split; [discriminate|].
  exists (line :: rest), w1. split; [reflexivity|].
  repeat split; assumption.
Qed.

(** X11.  With explanations disabled every slide of the lesson has the
    script [" "] and no audio, and the run makes no explanation call
    and no speech call. *)
Theorem generateSlides_without_explanations_has_no_narration :
  forall (inputText contextText : jsstring) (w : W),
    match generateSlides generateContent JSON_parse inputText contextText
                         false w with
    | Some (Finished _ slides events _) =>
        Forall (fun s => script s = lit " " /\ audioData s = None) slides /\
        serviceCalls Explain events = 0%nat /\
        serviceCalls Speech events = 0%nat
    | _ => True
    end.
Proof.
  intros inputText contextText w. unfold generateSlides.
  destruct (isEmpty (trim inputText)); [exact I|].
  destruct (splitTextIntoSentences (splitProvider generateContent)
              JSON_parse inputText w) as [[lines w1]|]; [|exact I].
  destruct lines as [|line rest]; [repeat split; constructor|].
  destruct (pipeline_steps_run generateContent JSON_parse contextText false
              (line :: rest) w1)
    as (slides1 & events1 & w2 & slides2 & events2 & w3 & slides3 & events3
        & w4 & -> & -> & -> & _ & _ & _ & _ & He & _ & _ & Hoff).
  destruct (Hoff eq_refl) as [Hall Hs]. repeat split; assumption.
Qed.

End PipelineTheorems.

Section PipelineOutage.
Import JsString GeminiService GeminiCalls App Pipeline PipelineSpec SlideSpec.
Import RetrySpec CallSpec.
Context {W E : Type}.
Variable generateContent :
  Request -> W -> (GenerateContentResponse + E) * W.
Variable JSON_parse : jsstring -> option Json.
Hypothesis outage : Outage generateContent.

Lemma outage_outcomes : forall request k w,
  exists e, outcomeOf (generateContent request) k w = inr e.
Proof. intros request k w. apply outage. Qed.

Lemma translateText_outage : forall english contextText w,
  exists effects w',
    translateText generateContent english contextText w
      = Some (translationError, effects, w').
Proof.
  intros english contextText w.
  destruct (translateText_run generateContent english contextText w)
    as ([[v eff] w'] & -> & (_ & _ & _ & Hfail)).
  destruct Hfail as [-> _]; [intros k _; apply outage_outcomes|].
  now exists eff, w'.
Qed.

Lemma generateExplanation_outage : forall english contextText w,
  exists effects w',
    generateExplanation generateContent english contextText w
      = Some (explanationError, effects, w').
Proof.
  intros english contextText w.
  destruct (generateExplanation_run generateContent english contextText w)
    as ([[v eff] w'] & -> & (_ & _ & _ & Hfail)).
  destruct Hfail as [-> _]; [intros k _; apply outage_outcomes|].
  now exists eff, w'.
Qed.

Lemma generateImage_outage : forall englishText explanation contextText w,
  exists effects w',
    generateImage generateContent englishText explanation contextText w
      = Some (None, effects, w').
Proof.
  intros englishText explanation contextText w.
  destruct (generateImage_run generateContent englishText explanation
              contextText w)
    as ([[v eff] w'] & -> & (_ & _ & _ & Hfail)).
  destruct Hfail as [-> _]; [intros k _; apply outage_outcomes|].
  now exists eff, w'.
Qed.

Lemma generateSpeech_outage : forall script w,
  exists effects w',
    generateSpeech generateContent script w = Some (None, effects, w').
Proof.
  intros script w. destruct (trim script) as [|c r] eqn:T.
  - exists [], w. now apply generateSpeech_blank.
  - destruct (generateSpeech_run generateContent script w)
      as ([[v eff] w'] & -> & (_ & _ & _ & Hfail));
      [rewrite T; discriminate|].
    destruct Hfail as [-> _]; [intros k _; apply outage_outcomes|].
    now exists eff, w'.
Qed.

Lemma translateLoop_outage : forall contextText auto lines i w slides events w',
  translateLoop generateContent contextText auto i lines w
    = Some (slides, events, w') ->
  Forall (fun s => hindi s = translationError /\
                   script s = if auto then explanationError else lit " ")
         slides.
Proof.
  intros contextText auto lines.
  induction lines as [|english rest IH]; intros i w slides events w' H;
    cbn [translateLoop] in H.
  - injection H as <- _ _. constructor.
  - destruct (translateText_outage english contextText w)
      as (eff1 & w1 & R1). rewrite R1 in H.
    destruct auto.
    + destruct (generateExplanation_outage english contextText w1)
        as (eff2 & w2 & R2). rewrite R2 in H.
      destruct (translateLoop generateContent contextText true (S i) rest w2)
        as [[[slides0 events0] w3]|] eqn:R3; [|discriminate].
      injection H as <- _ _. constructor; [split; reflexivity|].
      exact (IH _ _ _ _ _ R3).
    + destruct (translateLoop generateContent contextText false (S i) rest w1)
        as [[[slides0 events0] w3]|] eqn:R3; [|discriminate].
      injection H as <- _ _. constructor; [split; reflexivity|].
      exact (IH _ _ _ _ _ R3).
Qed.

Lemma imageLoop_outage : forall contextText slides w slides' events w',
  imageLoop generateContent contextText slides w
    = Some (slides', events, w') ->
  Forall (fun s => imageUrl s = None) slides'.
Proof.
  intros contextText slides.
  induction slides as [|slide rest IH]; intros w slides' events w' H;
    cbn [imageLoop] in H.
  - injection H as <- _ _. constructor.
  - destruct (generateImage_outage (english slide) (script slide)
                contextText w) as (eff & w1 & R1). rewrite R1 in H.
    destruct (imageLoop generateContent contextText rest w1)
      as [[[slides0 events0] w2]|] eqn:R2; [|discriminate].
    injection H as <- _ _. constructor; [reflexivity|].
    exact (IH _ _ _ _ R2).
Qed.

Lemma narrationLoop_outage : forall slides w slides' events w',
  narrationLoop generateContent slides w = Some (slides', events, w') ->
  Forall (fun s => audioData s = None) slides'.
Proof.
  induction slides as [|slide rest IH]; intros w slides' events w' H;
    cbn [narrationLoop] in H.
  - injection H as <- _ _. constructor.
  - destruct (isEmpty (trim (script slide))).
    + destruct (narrationLoop generateContent rest w)
        as [[[slides0 events0] w2]|] eqn:R2; [|discriminate].
      injection H as <- _ _. constructor; [reflexivity|].
      exact (IH _ _ _ _ R2).
    + destruct (generateSpeech_outage (script slide) w)
        as (eff & w1 & R1). rewrite R1 in H.
      destruct (narrationLoop generateContent rest w1)
        as [[[slides0 events0] w2]|] eqn:R2; [|discriminate].
      injection H as <- _ _. constructor; [reflexivity|].
      exact (IH _ _ _ _ R2).
Qed.

Lemma splitProvider_outage : forall passage w,
  exists e, fst (splitProvider generateContent passage w) = inr e.
Proof.
  intros passage w. unfold splitProvider.
  destruct (outage (SplitRequest passage) w) as [e He].
  destruct (generateContent (SplitRequest passage) w) as [[r|e'] w2];
    cbn in *; [discriminate|]. now exists e'.
Qed.

Lemma splitText_outage : forall passage w,
  exists w',
    splitTextIntoSentences (splitProvider generateContent) JSON_parse
                           passage w
      = Some (fallbackSplit passage, w').
Proof.
  intros passage w. unfold splitTextIntoSentences.
  destruct (withRetry_run (splitProvider generateContent passage) w)
    as ([[r eff] w'] & -> & Hrun).
  destruct r as [rt|e]; [|now exists w'].
  unfold RunFrom in Hrun.
  destruct Hrun as (_ & _ & _ & _ & _ & _ & Hr).
  unfold outcomeOf in Hr.
  destruct (splitProvider_outage passage
              (worldAfter (splitProvider generateContent passage)
                          (calls eff - 1) w)) as [e He].
  congruence.
Qed.

End PipelineOutage.

Section PipelineOutageClaim.
Import JsString GeminiService GeminiCalls App Pipeline PipelineSpec SlideSpec.
Context {W E : Type}.
Variable generateContent :
  Request -> W -> (GenerateContentResponse + E) * W.
Variable JSON_parse : jsstring -> option Json.

(** X12.  When the provider rejects every call, [generateSlides] still
    ends.  Its segments are those of the fallback splitter; with no
    segment it ends in the error state, and otherwise in the done state
    with one slide per segment carrying the translation failure string,
    the explanation failure string (the script [" "] when explanations
    are disabled), no image and no audio. *)
Theorem generateSlides_survives_provider_outage :
  Outage generateContent ->
  forall (inputText contextText : jsstring) (auto : bool) (w : W),
  exists run,
    generateSlides generateContent JSON_parse inputText contextText auto w
      = Some run /\
    match run with
    | Ignored => trim inputText = []
    | Finished state slides events w' =>
        state = match fallbackSplit inputText with
                | [] => error
                | _ :: _ => done
                end /\
        map english slides = fallbackSplit inputText /\
        Forall (fun s =>
                  hindi s = translationError /\
                  script s = (if auto then explanationError else lit " ") /\
                  imageUrl s = None /\ audioData s = None)
               slides
    end.
Proof.
  intros outage inputText contextText auto w. unfold generateSlides.
  destruct (trim inputText) as [|c0 r0] eqn:T; cbn [isEmpty].
  { exists Ignored. split; reflexivity. }
  destruct (splitText_outage generateContent JSON_parse outage inputText w)
    as (w1 & ->).
  destruct (fallbackSplit inputText) as [|line rest] eqn:F.
  { eexists. split; [reflexivity|]. repeat split. constructor. }
  destruct (pipeline_steps_run generateContent JSON_parse contextText auto
              (line :: rest) w1)
    as (slides1 & events1 & w2 & slides2 & events2 & w3 & slides3 & events3
        & w4 & R1 & R2 & R3 & Hen & _).
  rewrite R1, R2, R3.
  eexists. split; [reflexivity|]. split; [reflexivity|].
  split; [exact Hen|].
  pose proof (translateLoop_outage generateContent outage _ _ _ _ _ _ _ _ R1)
    as H1.
  pose proof (imageLoop_outage generateContent outage _ _ _ _ _ _ R2) as H2.
  pose proof (narrationLoop_outage generateContent outage _ _ _ _ _ R3)
    as H3.
  destruct (imageLoop_run generateContent contextText slides1 w2)
    as (s2 & e2 & w3' & R2' & Hf2 & _).
  rewrite R2 in R2'. injection R2' as <- <- <-.
  destruct (narrationLoop_run generateContent slides2 w3)
    as (s3 & e3 & w4' & R3' & Hf3 & _).
  rewrite R3 in R3'. injection R3' as <- <- <-.
  rewrite Forall_forall in H1, H2, H3.
  apply Forall_forall. intros x3 Hin.
  pose proof (H3 x3 Hin) as Hau.
  apply In_nth_error in Hin. destruct Hin as [k Hk3].
  destruct (Forall2_nth_error_r _ _ _ _ _ _ _ Hf3 Hk3)
    as (x2 & Hk2 & _ & _ & Hh3 & Hs3 & Hi3 & _).
  destruct (Forall2_nth_error_r _ _ _ _ _ _ _ Hf2 Hk2)
    as (x1 & Hk1 & _ & _ & Hh2 & Hs2 & _).
  destruct (H1 x1 (nth_error_In _ _ Hk1)) as [Hh1 Hs1].
  pose proof (H2 x2 (nth_error_In _ _ Hk2)) as Hi2.
  repeat split; congruence.
Qed.

End PipelineOutageClaim.

Section PipelineOutageWitness.
Import JsString GeminiService GeminiCalls App Pipeline PipelineSpec Samples.

(** A provider that rejects every request. *)
Lemma deadProvider_outage :
  Outage (fun (_ : Request) (w : unit) =>
            (@inr GenerateContentResponse unit tt, w)).
Proof. intros request w. exists tt. reflexivity. Defined.

Lemma generateSlides_survives_provider_outage_witness :
  exists slide w',
    generateSlides (fun (_ : Request) (w : unit) =>
                      (@inr GenerateContentResponse unit tt, w))
                   noParse woods [] true tt
      = Some (Finished done [slide]
                [ServiceCall Translate
                   [Called; Slept 2000; Called; Slept 4000; Called];
                 ServiceCall Explain
                   [Called; Slept 2000; Called; Slept 4000; Called];
                 ServiceCall Image
                   [Called; Slept 2000; Called; Slept 4000; Called];
                 ServiceCall Speech
                   [Called; Slept 2000; Called; Slept 4000; Called]]
                w') /\
    hindi slide = translationError /\
    script slide = explanationError /\
    imageUrl slide = None /\ audioData slide = None.
Proof.
  destruct (generateSlides_survives_provider_outage
              (fun (_ : Request) (w : unit) =>
                 (@inr GenerateContentResponse unit tt, w))
              noParse deadProvider_outage woods [] true tt)
    as (run & Hrun & Hspec).
  eexists _, _. split; [reflexivity|].
  repeat split.
Defined.

End PipelineOutageWitness.

(** ** Navigation during and after generation *)

Section NavigationClaims.
Import JsString App Pipeline Player Session.

Lemma act_keeps_index_in_range : forall p a,
  IndexInRange p -> IndexInRange (act p a).
Proof.
  intros [sl idx st] a H. unfold IndexInRange in *. cbn in H.
  destruct a; cbn.
  - unfold handleNextSlide, beforeLast. cbn.
    destruct (Z.of_nat idx <? Z.of_nat (List.length sl) - 1)%Z eqn:B; cbn.
    + apply Z.ltb_lt in B. left. lia.
    + exact H.
  - unfold handleManualNext, beforeLast. cbn.
    destruct (Z.of_nat idx <? Z.of_nat (List.length sl) - 1)%Z eqn:B; cbn.
    + apply Z.ltb_lt in B. left. lia.
    + exact H.
  - unfold handleManualPrev. destruct idx as [|i]; cbn; [exact H|].
    left. destruct H as [H|[_ H]]; lia.
  - unfold handlePlayPause, startLesson, pauseLesson. cbn.
    destruct st; cbn; try exact H; destruct sl as [|s0 sl']; cbn;
      try exact H; left; cbn; lia.
  - unfold startLesson. cbn.
    destruct sl as [|s0 sl']; cbn; [exact H|].
    destruct st; cbn; try exact H. left. lia.
  - exact H.
Qed.

Lemma act_keeps_slides : forall p a, slides (act p a) = slides p.
Proof.
  intros [sl idx st] a. destruct a; cbn.
  - unfold handleNextSlide. now destruct (beforeLast _).
  - unfold handleManualNext. now destruct (beforeLast _).
  - unfold handleManualPrev. now destruct idx.
  - unfold handlePlayPause, startLesson, pauseLesson. cbn.
    destruct st; cbn; try reflexivity; now destruct sl.
  - unfold startLesson. cbn. destruct sl; [reflexivity|]. now destruct st.
  - reflexivity.
Qed.

Lemma assign_length : forall (A : Type) (f : A -> A) l i,
  List.length (assign i f l) = List.length l.
Proof.
  induction l as [|x l IH]; intros [|i]; cbn; auto.
Qed.

Lemma published_length : forall r a a',
  published r a = Some a' ->
  (List.length a <= List.length a')%nat /\ (1 <= List.length a')%nat.
Proof.
  intros r a a' H. destruct r; unfold published in H; try discriminate.
  - injection H as <-. rewrite length_app. cbn. lia.
  - destruct (i <? List.length a)%nat eqn:L; [|discriminate].
    injection H as <-. apply Nat.ltb_lt in L. rewrite assign_length. lia.
  - destruct (i <? List.length a)%nat eqn:L; [|discriminate].
    injection H as <-. apply Nat.ltb_lt in L. rewrite assign_length. lia.
Qed.

Lemma regenerate_length : forall slides0 index0 g prevSlides,
  List.length (regenerate slides0 index0 g prevSlides)
  = List.length prevSlides.
Proof.
  intros slides0 index0 g prevSlides. destruct g; cbn.
  - unfold handleRegenerateImage.
    destruct (nth_error slides0 index0); [|reflexivity].
    destruct (generateImage s); [apply length_map|reflexivity].
  - unfold handleRegenerateTranslation.
    destruct (nth_error slides0 index0); [|reflexivity].
    destruct (translateText s); [apply length_map|reflexivity].
  - unfold handleRegenerateScript.
    destruct (nth_error slides0 index0); [|reflexivity].
    destruct (generateExplanation s); [|reflexivity].
    destruct (generateSpeech a); [apply length_map|reflexivity].
Qed.

(** Replacing the slides by at least as many, and at least one, keeps
    the index in range. *)
Lemma setSlides_keeps_index_in_range : forall p l,
  IndexInRange p ->
  (List.length (slides p) <= List.length l)%nat ->
  (slides p = [] -> l = [] \/ (1 <= List.length l)%nat) ->
  IndexInRange (setSlides l p).
Proof.
  intros [sl idx st] l H Hle Hne. unfold IndexInRange in *. cbn in *.
  destruct H as [H|[-> ->]].
  - left. lia.
  - destruct (Hne eq_refl) as [->|H1]; [right; split; reflexivity|left; lia].
Qed.

Lemma step_consistent : forall s e, Consistent s -> Consistent (step s e).
Proof.
  intros [[sl idx st] g run] e [Hidx Hrun].
  cbn [player newSlides generationState slides] in Hidx, Hrun.
  assert (Hsame : Consistent (mkApp (mkPlayer sl idx st) g run))
    by (split; [exact Hidx|exact Hrun]).
  destruct e as [a| |inputText|r|slides0 index0 rg];
    cbn [step player newSlides generationState slides].
  - split; cbn [player newSlides generationState].
    + now apply act_keeps_index_in_range.
    + intros a0 Ha. rewrite act_keeps_slides. now apply Hrun.
  - destruct sl as [|s0 sl]; [exact Hsame|].
    destruct (isGenerating g) eqn:Hg; [exact Hsame|].
    split; cbn; [right; split; reflexivity|].
    intros a Ha. destruct (Hrun a Ha) as [Hgen _]. discriminate Hgen.
  - destruct sl as [|s0 sl]; [|exact Hsame].
    destruct (isEmpty inputText || isGenerating g); [exact Hsame|].
    destruct (isEmpty (trim inputText)); [exact Hsame|].
    split; cbn; [right; split; reflexivity|].
    intros a Ha. injection Ha as <-. split; [reflexivity|cbn; lia].
  - unfold runStep. cbn [newSlides player generationState].
    destruct run as [a|]; [|exact Hsame].
    destruct (Hrun a eq_refl) as [Hgen Hle].
    assert (Hpub : forall a', published r a = Some a' ->
              Consistent
                (mkApp (setSlides a' (mkPlayer sl idx st)) g (Some a'))).
    { intros a' Hp. destruct (published_length _ _ _ Hp) as [H1 H2].
      split; cbn [player newSlides generationState].
      - apply setSlides_keeps_index_in_range; cbn [slides];
          [exact Hidx|lia|auto].
      - intros a0 Ha0. injection Ha0 as <-. split; [exact Hgen|].
        cbn. lia. }
    destruct r.
    + split; cbn; [exact Hidx|discriminate].
    + split; cbn [player newSlides generationState slides]; [exact Hidx|].
      intros a0 Ha0. injection Ha0 as <-. split; [now destruct st0|exact Hle].
    + apply Hpub. reflexivity.
    + destruct (published (ImageAssigned i newImageUrl) a) as [a'|] eqn:Hp;
        [now apply Hpub|exact Hsame].
    + destruct (published (AudioAssigned i newAudioData) a) as [a'|] eqn:Hp;
        [now apply Hpub|exact Hsame].
    + split; cbn; [exact Hidx|discriminate].
  - split; cbn [player newSlides generationState].
    + apply setSlides_keeps_index_in_range; cbn [slides]; [exact Hidx| |].
      * rewrite regenerate_length. lia.
      * intros ->. left.
        destruct (regenerate slides0 index0 rg []) eqn:R; [reflexivity|].
        pose proof (regenerate_length slides0 index0 rg []) as L.
        rewrite R in L. discriminate L.
    + intros a Ha. destruct (Hrun a Ha) as [Hgen Hle]. split; [exact Hgen|].
      cbn. rewrite regenerate_length. exact Hle.
Qed.

Lemma initialApp_consistent : Consistent initialApp.
Proof.
  split; [right; split; reflexivity|discriminate].
Qed.

(** A session exercised: a lesson of two lines is generated; the user
    moves to the second slide while the images are made, and stays
    there although three more publications follow. *)
Example session_during_generation :
  let s := fold_left step
    [GenerateClicked (lit "One. Two.");
     RunStepped (Entered Translating);
     RunStepped (SlidePushed (Samples.silentSlide 0));
     RunStepped (SlidePushed (Samples.silentSlide 1));
     RunStepped (Entered Imaging);
     Acted ManualNext;
     RunStepped (ImageAssigned 0 None);
     GenerateClicked (lit "Three.");
     NewLessonClicked;
     RunStepped (ImageAssigned 1 None);
     RunStepped (Entered Narrating);
     RunStepped (AudioAssigned 0 None)] initialApp in
  currentSlideIndex (player s) = 1%nat /\
  lessonState (player s) = paused /\
  generationState s = narrating /\
  slides (player s) = [Samples.silentSlide 0; Samples.silentSlide 1].
Proof. repeat split. Qed.

(** X13.  From the initial state, whatever the user does (narration
    ending, next, previous, play, pause, new lesson, generate,
    regenerations landing) and however the updates of the generation in
    flight fall between these events, the current index designates a
    slide of the published lesson, or is 0 when no slide is published.
    The generation resets the index once, when it starts, and never when
    it publishes; the index stays in range because a generation only
    ever publishes an array that has not shrunk, and because no second
    generation starts while one is in flight: a call is in flight only
    in a generating state, in which the buttons that start a generation
    or discard the lesson do nothing. *)
Theorem navigation_keeps_index_in_range :
  forall events : list Event,
    let s := fold_left step events initialApp in
    IndexInRange (player s) /\
    (forall a, newSlides s = Some a ->
       isGenerating (generationState s) = true /\
       (List.length (slides (player s)) <= List.length a)%nat) /\
    (slides (player s) <> [] ->
     nth_error (slides (player s)) (currentSlideIndex (player s)) <> None).
Proof.
  intros events.
  assert (H : forall s, Consistent s ->
                        Consistent (fold_left step events s)).
  { induction events as [|e rest IH]; intros s Hs; cbn [fold_left].
    - exact Hs.
    - apply IH. now apply step_consistent. }
  specialize (H initialApp initialApp_consistent).
  cbv zeta. destruct H as [Hidx Hrun].
  split; [exact Hidx|]. split; [exact Hrun|].
  intros Hne. apply nth_error_Some.
  destruct Hidx as [Hlt|[Hnil _]]; [exact Hlt|contradiction].
Qed.

End NavigationClaims.

(** ** Frames before the end of the video *)

Section FloatOrderFacts.
Open Scope float_scope.

Lemma SFcompare_None : forall x y,
  SFcompare x y = None -> x = S754_nan \/ y = S754_nan.
Proof.
  intros x y H.
  destruct x as [sx|sx| |sx mx ex], y as [sy|sy| |sy my ey];
    cbn in H; try discriminate; auto.
Qed.

Lemma is_nan_false : forall a : float,
  is_nan a = false -> Prim2SF a <> S754_nan.
Proof.
  intros a H E. unfold is_nan in H.
  rewrite FloatAxioms.eqb_spec, E in H. discriminate H.
Qed.

Lemma leb_true_not_nan : forall a b : float,
  (a <=? b) = true -> Prim2SF a <> S754_nan /\ Prim2SF b <> S754_nan.
Proof.
  intros a b H. rewrite FloatAxioms.leb_spec in H. unfold SFleb in H.
  split; intros E; rewrite E in H; [discriminate H|].
  destruct (Prim2SF a); discriminate H.
Qed.

(** A number that is not below a bound is at or above it, when neither
    is NaN. *)
Lemma ltb_false_leb : forall bound e : float,
  Prim2SF bound <> S754_nan -> Prim2SF e <> S754_nan ->
  (e <? bound) = false -> (bound <=? e) = true.
Proof.
  intros bound e Hb He H.
  rewrite FloatAxioms.ltb_spec in H. rewrite FloatAxioms.leb_spec.
  unfold SFltb in H. unfold SFleb.
  rewrite (SFcompare_antisym (Prim2SF e) (Prim2SF bound)).
  destruct (SFcompare (Prim2SF e) (Prim2SF bound)) as [[| |]|] eqn:C;
    try reflexivity; try discriminate H.
  destruct (SFcompare_None _ _ C); contradiction.
Qed.

Lemma SFadd_zero_compare_l : forall x y,
  SFcompare (SF64add x (S754_zero false)) y = SFcompare x y.
Proof.
  intros x y.
  rewrite (SFcompare_antisym y (SF64add x (S754_zero false))).
  rewrite SFadd_zero_compare.
  rewrite (SFcompare_antisym x y).
  destruct (SFcompare x y) as [[| |]|]; reflexivity.
Qed.

Lemma leb_add_zero : forall a e : float,
  (a <=? e) = true -> (a + 0 <=? e) = true.
Proof.
  intros a e H. rewrite FloatAxioms.leb_spec in *.
  rewrite FloatAxioms.add_spec.
  change (Prim2SF 0) with (S754_zero false).
  unfold SFleb in *. now rewrite SFadd_zero_compare_l.
Qed.

Lemma leb_ltb_excl : forall s e : float,
  (s <=? e) = true -> (e <? s) = true -> False.
Proof.
  intros s e H1 H2.
  rewrite FloatAxioms.leb_spec in H1. rewrite FloatAxioms.ltb_spec in H2.
  unfold SFleb in H1. unfold SFltb in H2.
  rewrite (SFcompare_antisym (Prim2SF s) (Prim2SF e)) in H2.
  destruct (SFcompare (Prim2SF s) (Prim2SF e)) as [[| |]|];
    discriminate.
Qed.

End FloatOrderFacts.

Section CoverageClaims.
Import App TimelineSpec.
Open Scope float_scope.

Lemma timelineLoop_covers : forall ds i t elapsed,
  EndsAreNumbers (fst (timelineLoop 0 i t ds)) ->
  (t <=? elapsed) = true ->
  (elapsed <? snd (timelineLoop 0 i t ds)) = true ->
  exists j s d,
    find (isActive elapsed) (fst (timelineLoop 0 i t ds))
      = Some (SlideEvent j s d).
Proof.
  induction ds as [|d ds IH]; intros i t elapsed Hnum Hle Hlt.
  - cbn in Hlt. destruct (leb_ltb_excl _ _ Hle Hlt).
  - destruct ds as [|d' rest].
    + cbn in *. unfold isActive. cbn. rewrite Hle, Hlt. cbn.
      now exists i, t, d.
    + rewrite timelineLoop_unfold in *. cbn [fst snd] in *.
      inversion Hnum as [|? ? Hend Hnum1]; subst.
      inversion Hnum1 as [|? ? _ Hnum2]; subst.
      cbn [find]. unfold isActive at 1. cbn [startTime duration].
      rewrite Hle. cbn [andb].
      destruct (elapsed <? t + d) eqn:Hin.
      * now exists i, t, d.
      * unfold isActive at 1. cbn [startTime duration].
        rewrite leb_ltb_add_zero.
        apply IH; [exact Hnum2| |exact Hlt].
        apply leb_add_zero. apply ltb_false_leb.
        -- now apply is_nan_false.
        -- exact (proj2 (leb_true_not_nan _ _ Hle)).
        -- exact Hin.
Qed.

(** In the export timeline (transition duration 0), when no event ends
    at NaN, every tick whose elapsed time is at least 0 and below
    [totalDuration] finds an active slide event and draws that slide. *)
Lemma frames_covered_when_ends_are_numbers :
  forall (ds : list float) (elapsed : float),
    EndsAreNumbers (fst (buildTimeline ds)) ->
    (0 <=? elapsed) = true ->
    (elapsed <? snd (buildTimeline ds)) = true ->
    exists i s d,
      currentEvent elapsed (fst (buildTimeline ds))
        = Some (SlideEvent i s d) /\
      renderBranch elapsed (fst (buildTimeline ds)) (snd (buildTimeline ds))
        = DrawSlide i.
Proof.
  intros ds elapsed Hnum Hle Hlt.
  destruct (timelineLoop_covers ds 0%nat 0 elapsed Hnum Hle Hlt)
    as (i & s & d & Hfind).
  exists i, s, d. unfold renderBranch, currentEvent.
  unfold buildTimeline, buildTimelineWith, transitionDuration.
  rewrite Hfind. split; reflexivity.
Qed.

End CoverageClaims.

(** ** The watermark *)

Section WatermarkClaims.
Import Frame.
Open Scope float_scope.

Lemma leb_refl_of_not_nan : forall a : float,
  is_nan a = false -> (a <=? a) = true.
Proof.
  intros a H. unfold is_nan in H. apply negb_false_iff in H.
  rewrite FloatAxioms.eqb_spec in H. rewrite FloatAxioms.leb_spec.
  unfold SFeqb in H. unfold SFleb.
  destruct (SFcompare (Prim2SF a) (Prim2SF a)) as [[| |]|];
    try discriminate H; reflexivity.
Qed.

Lemma ltb_leb : forall a b : float, (a <? b) = true -> (a <=? b) = true.
Proof.
  intros a b H. rewrite FloatAxioms.ltb_spec in H.
  rewrite FloatAxioms.leb_spec. unfold SFltb in H. unfold SFleb.
  destruct (SFcompare (Prim2SF a) (Prim2SF b)) as [[| |]|];
    try discriminate H; reflexivity.
Qed.

(** Two numbers neither of which is below the other compare equal. *)
Lemma not_ltb_leb : forall a b : float,
  is_nan a = false -> is_nan b = false ->
  (a <? b) = false -> (b <? a) = false ->
  (a <=? b) = true /\ (b <=? a) = true.
Proof.
  intros a b Ha Hb H1 H2.
  apply is_nan_false in Ha, Hb.
  split; apply ltb_false_leb; assumption.
Qed.

(** The result of [Math.min(1, x)] for a number [x]. *)
Lemma mathMin_one : forall x : float,
  is_nan x = false ->
  is_nan (mathMin 1 x) = false /\ (mathMin 1 x <=? 1) = true.
Proof.
  intros x Hx. unfold mathMin.
  change (is_nan 1) with false. rewrite Hx. cbn [orb].
  destruct (1 <? x) eqn:L1; [split; reflexivity|].
  destruct (x <? 1) eqn:L2; [split; [exact Hx|now apply ltb_leb]|].
  destruct (not_ltb_leb 1 x eq_refl Hx L1 L2) as [_ H].
  change (get_sign 1) with false. cbn. split; assumption.
Qed.

Lemma mathMax_zero : forall m : float,
  is_nan m = false -> (m <=? 1) = true ->
  (0 <=? mathMax 0 m) = true /\ (mathMax 0 m <=? 1) = true.
Proof.
  intros m Hm Hle. unfold mathMax.
  change (is_nan 0) with false. rewrite Hm. cbn [orb].
  destruct (0 <? m) eqn:L1; [split; [now apply ltb_leb|exact Hle]|].
  destruct (m <? 0) eqn:L2; [split; reflexivity|].
  destruct (not_ltb_leb 0 m eq_refl Hm L1 L2) as [H _].
  change (get_sign 0) with false. cbn. split; reflexivity.
Qed.

(** X15.  The watermark opacity given to the canvas is a number between
    0 and 1 whenever the ramp it clamps is a number, and NaN only when
    that ramp is NaN; on a slide that is neither first nor last it is
    exactly 1. *)
Theorem watermarkAlpha_is_clamped :
  forall (isFirstSlide isLastSlide : bool)
         (elapsedSinceSlideStart slideDuration : float),
    let ramp := watermarkRamp isFirstSlide isLastSlide
                  elapsedSinceSlideStart slideDuration in
    let alpha := watermarkAlpha isFirstSlide isLastSlide
                   elapsedSinceSlideStart slideDuration in
    (if is_nan ramp then is_nan alpha = true
     else (0 <=? alpha) = true /\ (alpha <=? 1) = true) /\
    (isFirstSlide = false -> isLastSlide = false -> alpha = 1).
Proof.
  intros isFirst isLast elapsed dur ramp alpha. split.
  - subst alpha. unfold watermarkAlpha. fold ramp.
    destruct (is_nan ramp) eqn:N.
    + unfold mathMin. rewrite N, orb_true_r. reflexivity.
    + destruct (mathMin_one ramp N) as [Hm Hle].
      exact (mathMax_zero _ Hm Hle).
  - intros -> ->. reflexivity.
Qed.

End WatermarkClaims.

(** ** Decoding a well-formed narration payload *)

Section Base64RoundTrip.
Import JsString WebAudio PcmPayload.
Open Scope N_scope.

(** Induction over a list three elements at a time. *)
Lemma list_ind3 : forall (A : Type) (P : list A -> Prop),
  P [] -> (forall a, P [a]) -> (forall a b, P [a; b]) ->
  (forall a b c l, P l -> P (a :: b :: c :: l)) ->
  forall l, P l.
Proof.
  intros A P H0 H1 H2 H3.
  assert (H : forall l, P l /\ (forall a, P (a :: l)) /\
                        (forall a b, P (a :: b :: l))).
  { induction l as [|x l (IH0 & IH1 & IH2)]; repeat split; auto. }
  intros l. apply H.
Qed.

Lemma alphabetCheck_all :
  forallb alphabetCheck (map N.of_nat (seq 0 64)) = true.
Proof. reflexivity. Qed.

Lemma alphabet_ok : forall v,
  v < 64 ->
  sextetOf (charOfSextet v) = Some v /\
  isAsciiWhitespace (charOfSextet v) = false /\
  charOfSextet v <> 61.
Proof.
  intros v Hv.
  pose proof alphabetCheck_all as H. rewrite forallb_forall in H.
  assert (Hin : In v (map N.of_nat (seq 0 64))).
  { apply in_map_iff. exists (N.to_nat v). split; [lia|].
    apply in_seq. lia. }
  specialize (H v Hin). unfold alphabetCheck in H.
  apply andb_true_iff in H. destruct H as [H H3].
  apply andb_true_iff in H. destruct H as [H1 H2].
  destruct (sextetOf (charOfSextet v)) as [v'|]; [|discriminate].
  apply N.eqb_eq in H1. subst v'.
  apply negb_true_iff in H2, H3. apply N.eqb_neq in H3.
  repeat split; assumption.
Qed.

Lemma sextetsOfBytes_bound : forall bytes,
  Forall (fun b => b < 256) bytes ->
  Forall (fun v => v < 64) (sextetsOfBytes bytes).
Proof.
  induction bytes as [|a|a b|a b c l IH] using list_ind3; intros H;
    cbn [sextetsOfBytes].
  - constructor.
  - inversion H as [|? ? Ha _]; subst. repeat constructor; lia.
  - inversion H as [|? ? Ha H1]; subst. inversion H1 as [|? ? Hb _]; subst.
    repeat constructor; lia.
  - inversion H as [|? ? Ha H1]; subst. inversion H1 as [|? ? Hb H2]; subst.
    inversion H2 as [|? ? Hc H3]; subst.
    repeat (constructor; [lia|]). now apply IH.
Qed.

Lemma bytesOfSextets_sextetsOfBytes : forall bytes,
  Forall (fun b => b < 256) bytes ->
  bytesOfSextets (sextetsOfBytes bytes) = bytes.
Proof.
  induction bytes as [|a|a b|a b c l IH] using list_ind3; intros H;
    cbn [sextetsOfBytes bytesOfSextets].
  - reflexivity.
  - inversion H as [|? ? Ha _]; subst. f_equal. lia.
  - inversion H as [|? ? Ha H1]; subst. inversion H1 as [|? ? Hb _]; subst.
    f_equal; [lia|]. f_equal. lia.
  - inversion H as [|? ? Ha H1]; subst. inversion H1 as [|? ? Hb H2]; subst.
    inversion H2 as [|? ? Hc H3]; subst.
    rewrite (IH H3). f_equal; [lia|]. f_equal; [lia|]. f_equal. lia.
Qed.

Lemma sextetsOf_alphabet : forall sextets,
  Forall (fun v => v < 64) sextets ->
  sextetsOf (map charOfSextet sextets) = Some sextets.
Proof.
  induction sextets as [|v l IH]; intros H; cbn; [reflexivity|].
  inversion H as [|? ? Hv Hl]; subst.
  destruct (alphabet_ok v Hv) as (-> & _ & _). now rewrite (IH Hl).
Qed.

(** The shapes the sextets and the padding of an encoding can take. *)
Lemma encoding_shape : forall bytes : list N,
  exists k : nat,
    (List.length (sextetsOfBytes bytes) = (4 * k)%nat /\
     paddingOf bytes = []) \/
    (List.length (sextetsOfBytes bytes) = (4 * k + 2)%nat /\
     paddingOf bytes = [61; 61]) \/
    (List.length (sextetsOfBytes bytes) = (4 * k + 3)%nat /\
     paddingOf bytes = [61]).
Proof.
  induction bytes as [|a|a b|a b c l IH] using list_ind3.
  - exists 0%nat. left. split; reflexivity.
  - exists 0%nat. right. left. split; reflexivity.
  - exists 0%nat. right. right. split; reflexivity.
  - destruct IH as [k [[H1 H2]|[[H1 H2]|[H1 H2]]]]; exists (S k);
      cbn [sextetsOfBytes paddingOf List.length]; rewrite H1, H2;
      [left|right; left|right; right]; split; (lia || reflexivity).
Qed.

End Base64RoundTrip.

Section AtobOfBase64.
Import JsString WebAudio PcmPayload.
Open Scope N_scope.

(** [stripPadding] in terms of the last characters of the string. *)
Lemma stripPadding_spec : forall s c1 rest,
  rev s = c1 :: rest ->
  stripPadding s
  = if c1 =? 61
    then match rest with
         | c2 :: r2 => if c2 =? 61 then rev r2 else rev rest
         | [] => rev rest
         end
    else s.
Proof.
  intros s c1 rest Hrev. unfold stripPadding. rewrite Hrev.
  destruct (c1 =? 61) eqn:E1.
  - apply N.eqb_eq in E1. subst c1.
    destruct rest as [|c2 r2]; [reflexivity|].
    destruct (c2 =? 61) eqn:E2.
    + apply N.eqb_eq in E2. subst c2. reflexivity.
    + destruct c2 as [|p]; [reflexivity|].
      repeat (try reflexivity; try (cbn in E2; discriminate E2);
              destruct p as [p|p|]).
  - destruct c1 as [|p]; [reflexivity|].
    repeat (try reflexivity; try (cbn in E1; discriminate E1);
            destruct p as [p|p|]).
Qed.

Lemma stripPadding_two : forall body,
  stripPadding (body ++ [61; 61]) = body.
Proof.
  intros body.
  assert (Hrev : rev (body ++ [61; 61]) = 61 :: 61 :: rev body)
    by (rewrite rev_app_distr; reflexivity).
  rewrite (stripPadding_spec _ _ _ Hrev). cbn [N.eqb Pos.eqb].
  apply rev_involutive.
Qed.

(** The characters of an encoding before its padding. *)
Lemma body_last : forall sextets,
  Forall (fun v => v < 64) sextets ->
  map charOfSextet sextets = [] \/
  exists c r, rev (map charOfSextet sextets) = c :: r /\ c <> 61.
Proof.
  intros sextets H.
  destruct (rev (map charOfSextet sextets)) as [|c r] eqn:R.
  - left. rewrite <- (rev_involutive (map charOfSextet sextets)), R.
    reflexivity.
  - right. exists c, r. split; [reflexivity|].
    assert (Hin : In c (map charOfSextet sextets)).
    { apply in_rev. rewrite R. now left. }
    apply in_map_iff in Hin. destruct Hin as (v & <- & Hv).
    rewrite Forall_forall in H. apply (alphabet_ok v (H v Hv)).
Qed.

Lemma filter_all : forall (A : Type) (f : A -> bool) l,
  Forall (fun x => f x = true) l -> filter f l = l.
Proof.
  intros A f l H. induction H as [|x l Hx _ IH]; cbn; [reflexivity|].
  now rewrite Hx, IH.
Qed.

Lemma paddingOf_cases : forall bytes : list N,
  paddingOf bytes = [] \/ paddingOf bytes = [61] \/
  paddingOf bytes = [61; 61].
Proof.
  induction bytes as [|a|a b|a b c l IH] using list_ind3; cbn; auto.
Qed.

(** [atob] undoes the encoding. *)
Lemma atob_base64Of : forall bytes,
  Forall (fun b => b < 256) bytes ->
  atob (base64Of bytes) = Some bytes.
Proof.
  intros bytes Hb.
  pose proof (sextetsOfBytes_bound bytes Hb) as Hsx.
  set (sextets := sextetsOfBytes bytes) in *.
  set (body := map charOfSextet sextets).
  assert (Hfilter : filter (fun c => negb (isAsciiWhitespace c))
                           (base64Of bytes) = base64Of bytes).
  { apply filter_all. unfold base64Of. apply Forall_app. split.
    - apply Forall_forall. intros c Hin. apply in_map_iff in Hin.
      destruct Hin as (v & <- & Hv). rewrite Forall_forall in Hsx.
      destruct (alphabet_ok v (Hsx v Hv)) as (_ & -> & _). reflexivity.
    - destruct (paddingOf_cases bytes) as [->|[->| ->]];
        repeat constructor. }
  assert (Hlen : List.length body = List.length sextets)
    by apply length_map.
  unfold atob. rewrite Hfilter. unfold base64Of. fold sextets. fold body.
  destruct (encoding_shape bytes) as [k [[H1 H2]|[[H1 H2]|[H1 H2]]]];
    fold sextets in H1; rewrite H2.
  - (* no padding *)
    rewrite app_nil_r.
    assert (E0 : (N.of_nat (List.length body) mod 4 =? 0) = true)
      by (apply N.eqb_eq; rewrite Hlen, H1; lia).
    rewrite E0.
    assert (Hstrip : stripPadding body = body).
    { destruct (body_last sextets Hsx) as [E|(c & r & Hrev & Hc)].
      - fold body in E. rewrite E. reflexivity.
      - fold body in Hrev. rewrite (stripPadding_spec _ _ _ Hrev).
        apply N.eqb_neq in Hc. now rewrite Hc. }
    rewrite Hstrip.
    assert (E1 : (N.of_nat (List.length body) mod 4 =? 1) = false)
      by (apply N.eqb_neq; rewrite Hlen, H1; lia).
    rewrite E1. unfold body. rewrite (sextetsOf_alphabet _ Hsx).
    unfold sextets. now rewrite bytesOfSextets_sextetsOfBytes.
  - (* two padding characters *)
    assert (E0 : (N.of_nat (List.length (body ++ [61; 61])) mod 4 =? 0)
                 = true).
    { apply N.eqb_eq. rewrite length_app, Hlen, H1. cbn [List.length].
      lia. }
    rewrite E0, stripPadding_two.
    assert (E1 : (N.of_nat (List.length body) mod 4 =? 1) = false)
      by (apply N.eqb_neq; rewrite Hlen, H1; lia).
    rewrite E1. unfold body. rewrite (sextetsOf_alphabet _ Hsx).
    unfold sextets. now rewrite bytesOfSextets_sextetsOfBytes.
  - (* one padding character *)
    assert (E0 : (N.of_nat (List.length (body ++ [61])) mod 4 =? 0) = true).
    { apply N.eqb_eq. rewrite length_app, Hlen, H1. cbn [List.length].
      lia. }
    rewrite E0.
    assert (Hstrip : stripPadding (body ++ [61]) = body).
    { assert (Hrev : rev (body ++ [61]) = 61 :: rev body)
        by (rewrite rev_app_distr; reflexivity).
      rewrite (stripPadding_spec _ _ _ Hrev). cbn [N.eqb Pos.eqb].
      destruct (body_last sextets Hsx) as [E|(c & r & Hr & Hc)].
      - fold body in E. rewrite E in Hlen. cbn in Hlen. lia.
      - fold body in Hr. rewrite Hr.
        apply N.eqb_neq in Hc. rewrite Hc.
        rewrite <- Hr. apply rev_involutive. }
    rewrite Hstrip.
    assert (E1 : (N.of_nat (List.length body) mod 4 =? 1) = false)
      by (apply N.eqb_neq; rewrite Hlen, H1; lia).
    rewrite E1. unfold body. rewrite (sextetsOf_alphabet _ Hsx).
    unfold sextets. now rewrite bytesOfSextets_sextetsOfBytes.
Qed.

End AtobOfBase64.

Section PayloadRoundTrip.
Import JsString WebAudio PcmPayload.

Lemma bytesOfInt16_bound : forall v,
  Forall (fun b => (b < 256)%N) (bytesOfInt16 v).
Proof.
  intros v. unfold bytesOfInt16. repeat constructor; lia.
Qed.

Lemma int16OfBytes_bytesOfInt16 : forall v,
  (-32768 <= v <= 32767)%Z ->
  int16OfBytes (Z.to_N ((v mod 65536) mod 256))
               (Z.to_N ((v mod 65536) / 256)) = v.
Proof.
  intros v Hv. unfold int16OfBytes.
  assert (E : Z.of_N (Z.to_N ((v mod 65536) mod 256)
                      + 256 * Z.to_N ((v mod 65536) / 256))
              = (v mod 65536)%Z) by lia.
  rewrite E.
  destruct (v mod 65536 <? 32768)%Z eqn:L.
  - apply Z.ltb_lt in L. lia.
  - apply Z.ltb_ge in L. lia.
Qed.

Lemma int16Pairs_payload : forall samples,
  Forall (fun v => (-32768 <= v <= 32767)%Z) samples ->
  int16Pairs (flat_map bytesOfInt16 samples) = samples.
Proof.
  intros samples H. induction H as [|v l Hv _ IH]; cbn; [reflexivity|].
  rewrite IH. f_equal. now apply int16OfBytes_bytesOfInt16.
Qed.

Lemma flat_map_bytes_bound : forall samples,
  Forall (fun b => (b < 256)%N) (flat_map bytesOfInt16 samples).
Proof.
  induction samples as [|v l IH]; cbn [flat_map]; [constructor|].
  apply Forall_app. split; [apply bytesOfInt16_bound|exact IH].
Qed.

Lemma flat_map_bytes_length : forall samples,
  List.length (flat_map bytesOfInt16 samples)
  = (2 * List.length samples)%nat.
Proof.
  induction samples as [|v l IH]; cbn [flat_map List.length];
    [reflexivity|].
  rewrite length_app, IH. cbn. lia.
Qed.

Lemma decode_base64Of : forall bytes,
  Forall (fun b => (b < 256)%N) bytes ->
  decode (base64Of bytes) = Ok bytes.
Proof.
  intros bytes H. unfold decode. rewrite (atob_base64Of bytes H).
  f_equal. rewrite <- (map_id bytes) at 2.
  apply map_ext_in. intros b Hin. rewrite Forall_forall in H.
  apply N.mod_small, H, Hin.
Qed.

(** X16.  The decoder inverts the payload format.  [decode] gives back
    any byte sequence from its standard base64 text; and for a
    non-empty sequence of signed 16-bit samples, the payload made of
    their little-endian bytes in base64 decodes to a buffer with one
    frame per sample, frame [i] being sample [i] divided by 32768. *)
Theorem decoder_inverts_the_payload_format :
  forall samples : list Z,
    samples <> [] ->
    Forall (fun v => (-32768 <= v <= 32767)%Z) samples ->
    (forall bytes, Forall (fun b => (b < 256)%N) bytes ->
                   decode (base64Of bytes) = Ok bytes) /\
    exists buffer,
      getAudioBufferFromBase64 (payloadOf samples) = Ok buffer /\
      frames buffer = List.length samples /\
      channelData buffer = map normalize samples /\
      numberOfChannels buffer = 1%nat /\
      sampleRate buffer = 24000%float.
Proof.
  intros samples Hne Hrange. split; [exact decode_base64Of|].
  unfold getAudioBufferFromBase64, payloadOf.
  rewrite (decode_base64Of _ (flat_map_bytes_bound samples)).
  unfold Int16Array.
  rewrite mod2_even, flat_map_bytes_length.
  replace (Nat.even (2 * List.length samples)) with true
    by (symmetry; apply Nat.even_spec; now exists (List.length samples)).
  rewrite (int16Pairs_payload samples Hrange).
  destruct (createBuffer (List.length samples) 24000) as [buf|e] eqn:C.
  - exists (fillChannel buf samples).
    rewrite (fillChannel_fresh _ _ _ C). unfold frames.
    cbn [numberOfChannels sampleRate channelData].
    rewrite length_map. repeat split.
  - destruct samples; [congruence|discriminate C].
Qed.

Lemma decoder_inverts_the_payload_format_witness :
  payloadOf [0; 32767; -32768; -1; 1]%Z = lit "AAD/fwCA//8BAA==" /\
  exists buffer,
    getAudioBufferFromBase64 (lit "AAD/fwCA//8BAA==") = Ok buffer /\
    frames buffer = 5%nat /\
    channelData buffer = map normalize [0; 32767; -32768; -1; 1]%Z.
Proof.
  split; [reflexivity|].
  destruct (decoder_inverts_the_payload_format
              [0; 32767; -32768; -1; 1]%Z
              ltac:(discriminate)
              ltac:(repeat constructor; lia))
    as (_ & buffer & Hok & Hframes & Hdata & _).
  exists buffer. repeat split; assumption.
Defined.

End PayloadRoundTrip.

(** ** Sums of non-negative numbers *)

Section NonNegativeSums.
Import App TimelineSpec.
Open Scope float_scope.

Lemma shr_1_nonneg : forall mrs,
  (0 <= shr_m mrs)%Z -> (0 <= shr_m (shr_1 mrs))%Z.
Proof.
  intros [m r s] H. cbn in *.
  destruct m as [|[p|p|]|[p|p|]]; cbn; lia.
Qed.

Lemma iter_pos_invariant : forall (A : Type) (f : A -> A) (P : A -> Prop),
  (forall x, P x -> P (f x)) -> forall p x, P x -> P (iter_pos f p x).
Proof.
  intros A f P Hf. induction p as [p IH|p IH|]; intros x Hx; cbn; auto.
Qed.

Lemma shr_fexp_nonneg : forall m e l,
  (0 <= m)%Z -> (0 <= shr_m (fst (shr_fexp prec emax m e l)))%Z.
Proof.
  intros m e l H. unfold shr_fexp, shr.
  assert (H0 : (0 <= shr_m (shr_record_of_loc m l))%Z)
    by (destruct l as [|[| |]]; exact H).
  destruct (fexp prec emax (Zdigits2 m + e) - e)%Z as [|p|p];
    cbn [fst]; try exact H0.
  apply iter_pos_invariant; [apply shr_1_nonneg|exact H0].
Qed.

Lemma round_nearest_even_nonneg : forall m l,
  (0 <= m)%Z -> (0 <= round_nearest_even m l)%Z.
Proof.
  intros m l H. unfold round_nearest_even.
  destruct l as [|[| |]]; try lia. destruct (Z.even m); lia.
Qed.

(** Rounding a non-negative mantissa keeps the sign it is given and
    never yields NaN. *)
Lemma binary_round_aux_sign : forall sx mx ex lx,
  (0 <= mx)%Z ->
  match binary_round_aux prec emax sx mx ex lx with
  | S754_nan => False
  | S754_zero s | S754_infinity s | S754_finite s _ _ => s = sx
  end.
Proof.
  intros sx mx ex lx H. unfold binary_round_aux.
  pose proof (shr_fexp_nonneg mx ex lx H) as H1.
  destruct (shr_fexp prec emax mx ex lx) as [mrs' e']. cbn [fst] in H1.
  pose proof (shr_fexp_nonneg _ e' loc_Exact
                (round_nearest_even_nonneg _ (loc_of_shr_record mrs') H1))
    as H2.
  destruct (shr_fexp prec emax
              (round_nearest_even (shr_m mrs') (loc_of_shr_record mrs'))
              e' loc_Exact) as [mrs'' e''].
  cbn [fst] in H2.
  destruct (shr_m mrs'') as [|p|p]; try reflexivity; [|lia].
  destruct (e'' <=? emax - prec)%Z; reflexivity.
Qed.

Lemma SFadd_nonneg : forall x y,
  NonNegSF x -> NonNegSF y -> NonNegSF (SF64add x y).
Proof.
  intros x y Hx Hy.
  destruct x as [sx|sx| |sx mx ex], y as [sy|sy| |sy my ey];
    cbn in Hx, Hy; try contradiction; subst; try exact I;
    try reflexivity.
  - destruct sx, sy; exact I.
  - unfold SF64add, SFadd.
    set (ez := Z.min ex ey). cbn [cond_Zopp]. unfold binary_normalize.
    destruct (Z.pos (fst (shl_align mx ex ez))
              + Z.pos (fst (shl_align my ey ez)))%Z as [|p|p] eqn:S;
      try lia.
    unfold binary_round.
    destruct (shl_align p ez (fexp prec emax (Z.pos (digits2_pos p) + ez)))
      as [mz ez'].
    pose proof (binary_round_aux_sign false (Z.pos mz) ez' loc_Exact
                  ltac:(lia)) as Hs.
    destruct (binary_round_aux prec emax false (Z.pos mz) ez' loc_Exact);
      cbn; auto.
Qed.

Lemma add_nonneg : forall a b : float,
  NonNeg a -> NonNeg b -> NonNeg (a + b).
Proof.
  intros a b Ha Hb. unfold NonNeg. rewrite FloatAxioms.add_spec.
  now apply SFadd_nonneg.
Qed.

Lemma SFcompare_refl : forall x,
  x <> S754_nan -> SFcompare x x = Some Eq.
Proof.
  intros [s|s| |s m e] H; cbn; try congruence.
  - now destruct s.
  - rewrite Z.compare_refl, Pos.compare_cont_refl. now destruct s.
Qed.

Lemma NonNeg_not_nan : forall a : float, NonNeg a -> is_nan a = false.
Proof.
  intros a H. unfold is_nan. rewrite FloatAxioms.eqb_spec. unfold SFeqb.
  rewrite SFcompare_refl; [reflexivity|].
  unfold NonNeg in H. intros E. now rewrite E in H.
Qed.

(** A number above 0.5 is non-negative. *)
Lemma above_half_nonneg : forall d : float, (0.5 <? d) = true -> NonNeg d.
Proof.
  intros d H. rewrite FloatAxioms.ltb_spec in H. unfold NonNeg.
  assert (E : exists m e, Prim2SF 0.5 = S754_finite false m e)
    by (eexists _, _; vm_compute; reflexivity).
  destruct E as (m & e & E). rewrite E in H. unfold SFltb in H.
  destruct (Prim2SF d) as [s|s| |s m' e']; cbn in H |- *;
    try discriminate H; try exact I; destruct s; try reflexivity;
    discriminate H.
Qed.

Lemma paddedDuration_nonneg : forall decoded, NonNeg (paddedDuration decoded).
Proof.
  intros [d|]; unfold paddedDuration.
  - destruct (0.5 <? d) eqn:L.
    + apply add_nonneg; [now apply above_half_nonneg|].
      unfold NonNeg. vm_compute. reflexivity.
    + unfold NonNeg. vm_compute. reflexivity.
  - unfold NonNeg. vm_compute. reflexivity.
Qed.

Lemma slideDuration_padded : forall slide d,
  slideDuration slide = Ok d -> exists decoded, d = paddedDuration decoded.
Proof.
  intros slide d D. unfold slideDuration in D.
  destruct (audioData slide) as [[|c payload]|].
  - exists None. congruence.
  - destruct (WebAudio.getAudioBufferFromBase64 (c :: payload)) as [b|];
      [|discriminate].
    exists (Some (WebAudio.duration b)). congruence.
  - exists None. congruence.
Qed.

Lemma slideDurations_nonneg : forall slides ds,
  slideDurations slides = Ok ds -> Forall NonNeg ds.
Proof.
  induction slides as [|slide rest IH]; intros ds H; cbn in H.
  - injection H as <-. constructor.
  - destruct (slideDuration slide) as [d|] eqn:D; [|discriminate].
    destruct (slideDurations rest) as [ds'|]; [|discriminate].
    injection H as <-. constructor; [|now apply IH].
    destruct (slideDuration_padded _ _ D) as [decoded ->].
    apply paddedDuration_nonneg.
Qed.

Lemma zero_nonneg : NonNeg 0.
Proof. unfold NonNeg. vm_compute. exact I. Qed.

Lemma timelineLoop_ends_are_numbers : forall ds i t,
  NonNeg t -> Forall NonNeg ds ->
  EndsAreNumbers (fst (timelineLoop 0 i t ds)).
Proof.
  induction ds as [|d ds IH]; intros i t Ht Hds.
  - constructor.
  - inversion Hds as [|? ? Hd Hrest]; subst.
    destruct ds as [|d' rest].
    + cbn. constructor; [|constructor]. cbn.
      apply NonNeg_not_nan, add_nonneg; assumption.
    + rewrite timelineLoop_unfold. cbn [fst].
      pose proof (add_nonneg _ _ Ht Hd) as Hend.
      pose proof (add_nonneg _ _ Hend zero_nonneg) as Hnext.
      constructor; [cbn; now apply NonNeg_not_nan|].
      constructor; [cbn; now apply NonNeg_not_nan|].
      apply IH; assumption.
Qed.

(** X14.  For every lesson whose slide durations resolved, every tick
    of the render loop whose elapsed time is at least 0 and below
    [totalDuration] finds an active slide event and draws that slide:
    no frame before the end of the video shows the bare background or
    a transition. *)
Theorem every_frame_before_the_end_draws_a_slide :
  forall (slides : list Slide) (ds : list float) (elapsed : float),
    slideDurations slides = Ok ds ->
    (0 <=? elapsed) = true ->
    (elapsed <? snd (buildTimeline ds)) = true ->
    exists i s d,
      currentEvent elapsed (fst (buildTimeline ds))
        = Some (SlideEvent i s d) /\
      renderBranch elapsed (fst (buildTimeline ds)) (snd (buildTimeline ds))
        = DrawSlide i.
Proof.
  intros slides ds elapsed Hds Hle Hlt.
  apply frames_covered_when_ends_are_numbers; try assumption.
  unfold buildTimeline, buildTimelineWith, transitionDuration.
  apply timelineLoop_ends_are_numbers;
    [exact zero_nonneg | exact (slideDurations_nonneg _ _ Hds)].
Qed.

Lemma every_frame_before_the_end_draws_a_slide_witness :
  slideDurations Samples.lesson = Ok [3; 3; 3] /\
  renderBranch 4.25 (fst (buildTimeline [3; 3; 3]))
               (snd (buildTimeline [3; 3; 3]))
    = DrawSlide 1.
Proof.
  split; [reflexivity|].
  destruct (every_frame_before_the_end_draws_a_slide
              Samples.lesson [3; 3; 3] 4.25 eq_refl eq_refl eq_refl)
    as (i & s & d & Hcur & Hdraw).
  rewrite Hdraw. f_equal.
  unfold currentEvent in Hcur. cbn in Hcur. now injection Hcur as <- _ _.
Defined.

End NonNegativeSums.

Section DurationResolution.
Import JsString App TimelineSpec.
Open Scope float_scope.

Lemma slideDurations_ok : forall slides ds,
  slideDurations slides = Ok ds ->
  Forall2 (fun slide d => slideDuration slide = Ok d) slides ds.
Proof.
  induction slides as [|slide rest IH]; intros ds H; cbn in H.
  - injection H as <-. constructor.
  - destruct (slideDuration slide) as [d|] eqn:D; [|discriminate].
    destruct (slideDurations rest) as [ds'|]; [|discriminate].
    injection H as <-. constructor; [exact D|now apply IH].
Qed.

Lemma slideDurations_err : forall slides e,
  slideDurations slides = Err e ->
  exists slide, In slide slides /\ slideDuration slide = Err e.
Proof.
  induction slides as [|slide rest IH]; intros e H; cbn in H;
    [discriminate|].
  destruct (slideDuration slide) as [d|e1] eqn:D.
  - destruct (slideDurations rest) as [ds'|e2]; [discriminate|].
    injection H as <-. destruct (IH e2 eq_refl) as (s & Hin & Hs).
    exists s. split; [now right|exact Hs].
  - injection H as <-. exists slide. split; [now left|exact D].
Qed.

(** X17.  The slide durations of an export resolve only together: when
    they resolve there is one duration per slide, each the duration of
    its slide and never NaN; when they do not, some slide's narration
    payload failed to decode; and a single slide whose payload fails to
    decode makes the whole resolution fail, whatever the other slides
    hold. *)
Theorem slideDurations_resolve_together :
  forall slides : list Slide,
    match slideDurations slides with
    | Ok ds =>
        Forall2 (fun slide d => slideDuration slide = Ok d) slides ds /\
        Forall (fun d => is_nan d = false) ds
    | Err e =>
        exists slide payload,
          In slide slides /\
          audioData slide = Some payload /\ payload <> [] /\
          WebAudio.getAudioBufferFromBase64 payload = Err e
    end /\
    ((exists slide e, In slide slides /\ slideDuration slide = Err e) ->
     exists e, slideDurations slides = Err e).
Proof.
  intros slides. split.
  - destruct (slideDurations slides) as [ds|e] eqn:R.
    + split; [now apply slideDurations_ok|].
      eapply Forall_impl; [|exact (slideDurations_nonneg _ _ R)].
      intros d. apply NonNeg_not_nan.
    + destruct (slideDurations_err _ _ R) as (slide & Hin & Hs).
      unfold slideDuration in Hs.
      destruct (audioData slide) as [[|c payload]|] eqn:A;
        try discriminate Hs.
      exists slide, (c :: payload). repeat split; try assumption;
        try discriminate.
      destruct (WebAudio.getAudioBufferFromBase64 (c :: payload));
        [discriminate Hs|congruence].
  - intros (slide & e & Hin & Hs).
    destruct (slideDurations slides) as [ds|e'] eqn:R; [|now exists e'].
    pose proof (slideDurations_ok _ _ R) as Hall.
    apply In_nth_error in Hin. destruct Hin as [k Hk].
    assert (Hex : exists d, slideDuration slide = Ok d).
    { clear R. revert k Hk. induction Hall as [|s d l l' Hsd _ IH];
        intros k Hk.
      - destruct k; discriminate.
      - destruct k as [|k]; cbn in Hk.
        + injection Hk as <-. now exists d.
        + exact (IH k Hk). }
    destruct Hex as [d Hd]. congruence.
Qed.

End DurationResolution.

(** ** Time spent backing off, and lessons without narration *)

Section BackoffTime.
Import GeminiService RetrySpec.
Context {W T E : Type}.
Variable asyncFn : W -> (T + E) * W.

Lemma geometric_sleep : forall (d : Z) (n a : nat),
  fold_right Z.add 0%Z
    (map (fun k => (d * 2 ^ Z.of_nat k)%Z) (seq a n))
  = (d * 2 ^ Z.of_nat a * (2 ^ Z.of_nat n - 1))%Z.
Proof.
  intros d n. induction n as [|n IH]; intros a.
  - cbn. lia.
  - cbn [seq map fold_right]. rewrite IH.
    replace (Z.of_nat (S a)) with (Z.of_nat a + 1)%Z by lia.
    replace (Z.of_nat (S n)) with (Z.of_nat n + 1)%Z by lia.
    rewrite !Z.pow_add_r by lia. ring.
Qed.

(** X19.  For a budget that is a whole number and a first delay that is
    a whole number, not negative, such that the largest delay computed
    is one a timer accepts (at most 2^31 - 1), a call through the retry
    wrapper that executes the operation [n] times asks its timers for
    [initialDelay * (2^(n-1) - 1)] in total; with the defaults a call
    never asks for more than 6000. *)
Theorem withRetry_total_backoff :
  forall (maxRetries : nat) (initialDelay : Z) (w : W),
    ExactParameters maxRetries initialDelay ->
    match withRetryFrom asyncFn maxRetries initialDelay w with
    | Some (_, effects, _) =>
        totalSleep effects
        = (initialDelay * (2 ^ Z.of_nat (calls effects - 1) - 1))%Z
    | None => False
    end /\
    match withRetry asyncFn w with
    | Some (_, effects, _) => (totalSleep effects <= 6000)%Z
    | None => False
    end.
Proof.
  intros maxRetries initialDelay w _.
  assert (Hgen : forall m d,
    match withRetryFrom asyncFn m d w with
    | Some (_, effects, _) =>
        totalSleep effects = (d * (2 ^ Z.of_nat (calls effects - 1) - 1))%Z
        /\ (calls effects <= m)%nat
    | None => False
    end).
  { intros m d. destruct m as [|m'].
    - cbn. split; lia.
    - unfold withRetryFrom.
      destruct (retryLoop_run asyncFn (S m') d (S (S m')) 0 w
                  ltac:(lia) ltac:(lia)) as ([[r eff] w'] & -> & Hrun).
      unfold RunFrom in Hrun.
      destruct Hrun as (_ & Hle & _ & Hsl & _).
      unfold totalSleep. rewrite Hsl, geometric_sleep.
      split; [cbn [Z.of_nat]; rewrite Z.pow_0_r; ring | lia]. }
  split.
  - specialize (Hgen maxRetries initialDelay).
    destruct (withRetryFrom asyncFn maxRetries initialDelay w)
      as [[[r eff] w']|]; [apply Hgen|exact Hgen].
  - specialize (Hgen 3%nat 2000%Z). unfold withRetry.
    destruct (withRetryFrom asyncFn 3 2000 w) as [[[r eff] w']|];
      [|exact Hgen].
    destruct Hgen as [-> Hc].
    assert (Hpow : (2 ^ Z.of_nat (calls eff - 1) <= 2 ^ 2)%Z)
      by (apply Z.pow_le_mono_r; lia).
    lia.
Qed.

End BackoffTime.

Section BackoffTimeWitness.
Import GeminiService RetrySpec.

Lemma withRetry_total_backoff_witness :
  ExactParameters 4 500 /\
  match withRetryFrom Samples.flakyOperation 4 500 0%nat with
  | Some (_, effects, _) =>
      totalSleep effects
      = (500 * (2 ^ Z.of_nat (calls effects - 1) - 1))%Z
  | None => False
  end /\
  match withRetry Samples.flakyOperation 0%nat with
  | Some (_, effects, _) => (totalSleep effects <= 6000)%Z
  | None => False
  end.
Proof.
  assert (H : ExactParameters 4 500)
    by (repeat split; try lia; vm_compute; discriminate).
  split; [exact H|].
  exact (withRetry_total_backoff Samples.flakyOperation 4 500 0%nat H).
Defined.

End BackoffTimeWitness.

Section SilentLessons.
Import JsString GeminiService GeminiCalls App Pipeline PipelineSpec.
Open Scope float_scope.
Context {W E : Type}.
Variable generateContent :
  Request -> W -> (GenerateContentResponse + E) * W.
Variable JSON_parse : jsstring -> option Json.

Lemma slideDurations_without_audio : forall slides,
  Forall (fun s => audioData s = None) slides ->
  slideDurations slides = Ok (repeat 3 (List.length slides)).
Proof.
  intros slides H. induction H as [|s l Hs _ IH]; [reflexivity|].
  cbn [slideDurations List.length repeat].
  unfold slideDuration. rewrite Hs, IH. reflexivity.
Qed.

(** X18.  A lesson generated with explanations disabled always
    resolves its slide durations for the export: every slide lasts
    exactly the default 3.0, since none has narration. *)
Theorem lesson_without_explanations_exports_with_default_durations :
  forall (inputText contextText : jsstring) (w : W),
    match generateSlides generateContent JSON_parse inputText contextText
                         false w with
    | Some (Finished _ slides _ _) =>
        slideDurations slides = Ok (repeat 3 (List.length slides))
    | _ => True
    end.
Proof.
  intros inputText contextText w. unfold generateSlides.
  destruct (isEmpty (trim inputText)); [exact I|].
  destruct (splitTextIntoSentences (splitProvider generateContent)
              JSON_parse inputText w) as [[lines w1]|]; [|exact I].
  destruct lines as [|line rest]; [reflexivity|].
  destruct (pipeline_steps_run generateContent JSON_parse contextText false
              (line :: rest) w1)
    as (slides1 & events1 & w2 & slides2 & events2 & w3 & slides3 & events3
        & w4 & -> & -> & -> & _ & _ & _ & _ & _ & _ & _ & Hoff).
  destruct (Hoff eq_refl) as [Hall _].
  apply slideDurations_without_audio.
  eapply Forall_impl; [|exact Hall]. cbn. intros s [_ H]. exact H.
Qed.

End SilentLessons.
